(** * Aggregation values of the stats package

    A shallow embedding of [stats/aggregation_value.go]: the count
    aggregator [AggregationCountValue] and the distribution aggregator
    [AggregationDistributionValue], with the operations of the
    [AggregationValue] interface.

    - [int64] is [Z] with the two's complement wrap-around written out;
    - [float64] is the kernel's binary64 type [float], so that every
      definition computes with the IEEE-754 results the Go program gets;
      each operation is rounded on its own, to nearest with ties to even
      (a compiler that fuses [x*y + z] into one rounding is not modelled);
    - [math.Pow], of the Go standard library, is a parameter of the
      operations that call it;
    - a slice is a [list], indexed with stdpp's lookup and insert; an index
      out of range is a run-time panic, modelled by [Panic];
    - a method with a pointer receiver returns the receiver's new state;
      the values are modelled by their contents, and the comments at
      [addToIt] say why that is exact when the argument is the receiver. *)

From Stdlib Require Import ZArith Floats Lia Strings.String.
From stdpp Require Import base list.

#[local] Open Scope Z_scope.

(** ** Machine numbers *)

Module Int64.

Definition MinInt64 : Z := - 2 ^ 63.
Definition MaxInt64 : Z := 2 ^ 63 - 1.

Definition in_range (z : Z) : Prop := MinInt64 <= z <= MaxInt64.

(** Two's complement reduction of an integer to 64 bits. *)
Definition wrap (z : Z) : Z := (z + 2 ^ 63) mod 2 ^ 64 - 2 ^ 63.

Definition add (x y : Z) : Z := wrap (x + y).
Definition sub (x y : Z) : Z := wrap (x - y).
Definition mul (x y : Z) : Z := wrap (x * y).

(** The sum of a slice of [int64], accumulated in [int64]. *)
Definition sum (l : list Z) : Z := foldr add 0 l.

End Int64.

Module Float64.

(** [math.MaxFloat64], the largest finite binary64 number. *)
Definition MaxFloat64 : float := 0x1.fffffffffffffp+1023%float.

(** [math.SmallestNonzeroFloat64], the smallest positive (subnormal)
    binary64 number, 2^-1074. *)
Definition SmallestNonzeroFloat64 : float := 0x1p-1074%float.

(** The conversion [float64(x)] of an [int64]: round to nearest, ties to
    even. *)
Definition of_int64 (z : Z) : float :=
  SF2Prim (binary_normalize prec emax z 0 false).

(** Truncation toward zero of the value [(-1)^s * m * 2^e]. *)
Definition trunc (s : bool) (m : positive) (e : Z) : Z :=
  let a := if 0 <=? e then Z.shiftl (Zpos m) e else Z.shiftr (Zpos m) (- e) in
  if s then - a else a.

(** The conversion [int64(f)] of a [float64]: the fraction is discarded.
    The Go specification leaves the result open when the truncated value
    is not an [int64] (and for NaN and the infinities); [None] stands for
    that case. *)
Definition to_int64 (f : float) : option Z :=
  match Prim2SF f with
  | S754_zero _ => Some 0
  | S754_finite s m e =>
      let z := trunc s m e in
      if (Int64.MinInt64 <=? z) && (z <=? Int64.MaxInt64) then Some z else None
  | S754_infinity _ | S754_nan => None
  end.

End Float64.

(** ** The order of [float64]

    Every number but NaN has a rank in a lexicographic order; [<?] and
    [<=?] are the comparisons of ranks. *)

Module FloatOrder.

(** The rank of a number: its class (the infinities outermost, zero in
    the middle), then exponent and mantissa, negated for negative
    numbers. *)
Definition rank (x : spec_float) : option (Z * Z * Z) :=
  match x with
  | S754_nan => None
  | S754_zero _ => Some (0, 0, 0)
  | S754_infinity s => Some (if s then -2 else 2, 0, 0)
  | S754_finite s m e =>
      Some (if s then (-1, - e, - Zpos m) else (1, e, Zpos m))
  end.

Definition rank_lt (k1 k2 : Z * Z * Z) : Prop :=
  let '(c1, e1, m1) := k1 in
  let '(c2, e2, m2) := k2 in
  c1 < c2 \/ (c1 = c2 /\ (e1 < e2 \/ (e1 = e2 /\ m1 < m2))).

Definition rank_le (k1 k2 : Z * Z * Z) : Prop :=
  let '(c1, e1, m1) := k1 in
  let '(c2, e2, m2) := k2 in
  c1 < c2 \/ (c1 = c2 /\ (e1 < e2 \/ (e1 = e2 /\ m1 <= m2))).

Definition lt (x y : float) : Prop :=
  exists k1 k2, rank (Prim2SF x) = Some k1 /\ rank (Prim2SF y) = Some k2
                /\ rank_lt k1 k2.

Definition le (x y : float) : Prop :=
  exists k1 k2, rank (Prim2SF x) = Some k1 /\ rank (Prim2SF y) = Some k2
                /\ rank_le k1 k2.

Definition ordered (x : float) : Prop :=
  exists k, rank (Prim2SF x) = Some k.

End FloatOrder.

(** ** The data model *)

Module stats.

(** The result of a call: it returns, or the Go run time panics (an index
    out of range, a nil pointer dereferenced). *)
Inductive outcome (A : Type) : Type :=
| Done (a : A)
| Panic.
Arguments Done {A} a.
Arguments Panic {A}.

Definition bind {A B : Type} (m : outcome A) (k : A -> outcome B) : outcome B :=
  match m with
  | Done a => k a
  | Panic => Panic
  end.

Notation "'let!' x ':=' m 'in' k" := (bind m (fun x => k))
  (at level 10, x name, m at level 100, k at level 200).

(** A sample is an [interface{}]: the two dynamic types [addSample] knows,
    and representatives of every other one. *)
Inductive sample : Type :=
| VInt64 (x : Z)
| VFloat64 (x : float)
| VInt (x : Z)
| VString (x : string)
| VBool (x : bool)
| VNil.

(** [type AggregationCountValue int64] *)
Definition AggregationCountValue : Type := Z.

(** [type AggregationDistributionValue struct] *)
Record AggregationDistributionValue : Type := mkDistribution {
  count : Z;
  min : float;
  max : float;
  mean : float;
  sumOfSquaredDev : float;
  countPerBucket : list Z;
  bounds : list float
}.

(** A value of the interface [AggregationValue]: the nil interface, or a
    pointer of one of the two implementing types; [None] is the nil
    pointer of that type. *)
Inductive AggregationValue : Type :=
| NilValue
| CountValue (p : option AggregationCountValue)
| DistributionValue (p : option AggregationDistributionValue).

(** ** The count aggregator *)

Module Count.

Definition newAggregationCountValue (v : Z) : AggregationCountValue := v.

Definition isAggregate (a : AggregationCountValue) : bool := true.

Definition addSample (a : AggregationCountValue) (v : sample)
  : AggregationCountValue :=
  Int64.add a 1.

(** The receiver is only read; the new counter is returned beside it.
    The counter is [None] where Go leaves the conversion to [int64]
    open. *)
Definition multiplyByFraction (a : AggregationCountValue) (fraction : float)
  : AggregationCountValue * option AggregationCountValue :=
  (a, Float64.to_int64 (Float64.of_int64 a * fraction + 0.5)%float).

Definition addToIt (a : AggregationCountValue) (av : AggregationValue)
  : outcome AggregationCountValue :=
  match av with
  | CountValue (Some other) => Done (Int64.add a other)
  | CountValue None => Panic
  | _ => Done a
  end.

Definition clear (a : AggregationCountValue) : AggregationCountValue := 0.

Definition equal (a : AggregationCountValue) (other : AggregationValue)
  : outcome bool :=
  match other with
  | CountValue (Some a2) => Done (a =? a2)
  | CountValue None => Panic
  | _ => Done false
  end.

End Count.

(** ** The distribution aggregator *)

Module Distribution.

(** [math.Pow10(-9)]: the binary64 number nearest to 10^-9. *)
Definition epsilon : float := 0x1.12e0be826d695p-30%float.

Definition newAggregationDistributionValue (bounds : list float)
  : AggregationDistributionValue :=
  {| count := 0;
     min := Float64.MaxFloat64;
     max := Float64.SmallestNonzeroFloat64;
     mean := 0%float;
     sumOfSquaredDev := 0%float;
     countPerBucket := replicate (length bounds + 1) 0;
     bounds := bounds |}.

Definition Count (a : AggregationDistributionValue) : Z := count a.
Definition Min (a : AggregationDistributionValue) : float := min a.
Definition Mean (a : AggregationDistributionValue) : float := mean a.
Definition Max (a : AggregationDistributionValue) : float := max a.

Definition Sum (a : AggregationDistributionValue) : float :=
  (mean a * Float64.of_int64 (count a))%float.

Definition SumOfSquaredDeviation (a : AggregationDistributionValue) : float :=
  sumOfSquaredDev a.

Definition variance (a : AggregationDistributionValue) : float :=
  if count a <=? 1 then 0%float
  else (SumOfSquaredDeviation a / Float64.of_int64 (Int64.sub (count a) 1))%float.

Definition CountPerBucket (a : AggregationDistributionValue) : list Z :=
  foldl (fun ret c => ret ++ [c]) [] (countPerBucket a).

Definition isAggregate (a : AggregationDistributionValue) : bool := true.

(** [s[i]++] on a slice of [int64]. *)
Definition increment (s : list Z) (i : nat) : outcome (list Z) :=
  match s !! i with
  | Some c => Done (<[i := Int64.add c 1]> s)
  | None => Panic
  end.

(** The loop of [incrementBucketCount]: the index, counted from [i], of
    the first bound above [f]; the number of bounds when there is none. *)
Fixpoint bucketOf (f : float) (bs : list float) (i : nat) : nat :=
  match bs with
  | [] => i
  | b :: bs' => if (f <? b)%float then i else bucketOf f bs' (S i)
  end.

Definition incrementBucketCount (a : AggregationDistributionValue) (f : float)
  : outcome AggregationDistributionValue :=
  let set s :=
    {| count := count a; min := min a; max := max a; mean := mean a;
       sumOfSquaredDev := sumOfSquaredDev a;
       countPerBucket := s; bounds := bounds a |} in
  if (length (bounds a) =? 0)%nat then
    let! s := increment (countPerBucket a) 0 in Done (set s)
  else
    let! s := increment (countPerBucket a) (bucketOf f (bounds a) 0) in Done (set s).

(** The type switch of [addSample]. *)
Definition numeric (v : sample) : option float :=
  match v with
  | VInt64 x => Some (Float64.of_int64 x)
  | VFloat64 x => Some x
  | _ => None
  end.

Definition addSample (a : AggregationDistributionValue) (v : sample)
  : outcome AggregationDistributionValue :=
  match numeric v with
  | None => Done a
  | Some f =>
      let min1 := if (f <? min a)%float then f else min a in
      let max1 := if (max a <? f)%float then f else max a in
      let count1 := Int64.add (count a) 1 in
      let! a1 := incrementBucketCount
              {| count := count1; min := min1; max := max1; mean := mean a;
                 sumOfSquaredDev := sumOfSquaredDev a;
                 countPerBucket := countPerBucket a; bounds := bounds a |} f in
      if count a1 =? 1 then
        Done {| count := count a1; min := min a1; max := max a1; mean := f;
                sumOfSquaredDev := sumOfSquaredDev a1;
                countPerBucket := countPerBucket a1; bounds := bounds a1 |}
      else
        let oldMean := mean a1 in
        let mean1 := (mean a1 + (f - mean a1) / Float64.of_int64 (count a1))%float in
        Done {| count := count a1; min := min a1; max := max a1; mean := mean1;
                sumOfSquaredDev :=
                  (sumOfSquaredDev a1 + (f - oldMean) * (f - mean1))%float;
                countPerBucket := countPerBucket a1; bounds := bounds a1 |}
  end.

(** [for i, c := range src { dst[i] = c }], from index [i] on. *)
Fixpoint copyFrom (i : nat) (src dst : list Z) : outcome (list Z) :=
  match src with
  | [] => Done dst
  | c :: src' =>
      match dst !! i with
      | Some _ => copyFrom (S i) src' (<[i := c]> dst)
      | None => Panic
      end
  end.

(** The receiver is only read; the copy is returned beside it. *)
Definition multiplyByFraction (a : AggregationDistributionValue) (fraction : float)
  : outcome (AggregationDistributionValue * AggregationValue) :=
  let ret := newAggregationDistributionValue (bounds a) in
  let! s := copyFrom 0 (countPerBucket a) (countPerBucket ret) in
  Done (a, DistributionValue (Some
    {| count := count a; min := min a; max := max a; mean := mean a;
       sumOfSquaredDev := sumOfSquaredDev a;
       countPerBucket := s; bounds := bounds ret |})).

(** [for i := range src { dst[i] = dst[i] + src[i] }], from index [i]
    on. Each index is read before it is written and written once, so the
    loop computes the same slice when [src] and [dst] are one slice. *)
Fixpoint addFrom (i : nat) (src dst : list Z) : outcome (list Z) :=
  match src with
  | [] => Done dst
  | c :: src' =>
      match dst !! i with
      | Some d => addFrom (S i) src' (<[i := Int64.add d c]> dst)
      | None => Panic
      end
  end.

(** [for i := range s { s[i] = 0 }] *)
Definition zeroAll (s : list Z) : list Z :=
  foldl (fun s' i => <[i := 0]> s') s (seq 0 (length s)).

Definition clear (a : AggregationDistributionValue) : AggregationDistributionValue :=
  {| count := 0;
     min := Float64.MaxFloat64;
     max := Float64.SmallestNonzeroFloat64;
     mean := 0%float;
     sumOfSquaredDev := 0%float;
     countPerBucket := zeroAll (countPerBucket a);
     bounds := bounds a |}.

(** The loop of [equal] over the receiver's buckets; the two slices have
    the same length when it runs. *)
Fixpoint sameBuckets (s s2 : list Z) : bool :=
  match s, s2 with
  | c :: s', c2 :: s2' => if negb (c =? c2) then false else sameBuckets s' s2'
  | _, _ => true
  end.

(** The shape [newAggregationDistributionValue] gives a value and every
    method keeps: one bucket more than there are bounds. *)
Definition wellFormed (a : AggregationDistributionValue) : Prop :=
  length (countPerBucket a) = (length (bounds a) + 1)%nat.

Section WithPow.

(** [math.Pow] of the Go standard library. *)
Variable Pow : float -> float -> float.

(** Every field of [other] is read before the receiver's field of the
    same name is written, so the result is the same when [other] is the
    receiver itself. *)
Definition addToIt (a : AggregationDistributionValue) (av : AggregationValue)
  : outcome AggregationDistributionValue :=
  match av with
  | DistributionValue (Some other) =>
      if count other =? 0 then Done a
      else
        let min1 := if (min other <? min a)%float then min other else min a in
        let max1 := if (max a <? max other)%float then max other else max a in
        let delta := (mean other - mean a)%float in
        let sumSq1 :=
          (sumOfSquaredDev a + sumOfSquaredDev other
           + Pow delta 2 * Float64.of_int64 (Int64.mul (count a) (count other))
             / Float64.of_int64 (Int64.add (count a) (count other)))%float in
        let mean1 :=
          ((Sum a + Sum other)
           / Float64.of_int64 (Int64.add (count a) (count other)))%float in
        let count1 := Int64.add (count a) (count other) in
        let! s := addFrom 0 (countPerBucket other) (countPerBucket a) in
        Done {| count := count1; min := min1; max := max1; mean := mean1;
                sumOfSquaredDev := sumSq1;
                countPerBucket := s; bounds := bounds a |}
  | DistributionValue None => Panic
  | _ => Done a
  end.

Definition equal (a : AggregationDistributionValue) (other : AggregationValue)
  : bool :=
  match other with
  | DistributionValue (Some a2) =>
      if negb (length (countPerBucket a) =? length (countPerBucket a2))%nat
      then false
      else if negb (sameBuckets (countPerBucket a) (countPerBucket a2))
      then false
      else
        (Count a =? Count a2)
        && (Min a =? Min a2)%float
        && (Max a =? Max a2)%float
        && (Pow (Mean a - Mean a2) 2 <? epsilon)%float
        && (Pow (variance a - variance a2) 2 <? epsilon)%float
  | _ => false
  end.

(** [collected bs xs a]: the value [a] is reached from the zeroed
    value over the bounds [bs] by calls of [addSample] with numeric
    samples and calls of [addToIt] with values reached the same way
    (the receiver itself among them); [xs] lists the samples that went
    into it, the latest first. *)
Inductive collected (bs : list float)
  : list float -> AggregationDistributionValue -> Prop :=
| collected_new :
    collected bs [] (newAggregationDistributionValue bs)
| collected_addSample xs a v f a' :
    collected bs xs a ->
    numeric v = Some f ->
    addSample a v = Done a' ->
    collected bs (f :: xs) a'
| collected_addToIt xs ys a other a' :
    collected bs xs a ->
    collected bs ys other ->
    addToIt a (DistributionValue (Some other)) = Done a' ->
    collected bs (ys ++ xs) a'.

End WithPow.

End Distribution.

End stats.

(** ** Vocabulary of the statements *)

Import stats.

(** In the examples [math.Pow] is only applied to the exponent 2; there it
    is taken to be the correctly rounded square. *)
Definition square (x y : float) : float := (x * x)%float.

(** The value of scenario B of the specification: the samples 1 and 5 over
    the bounds [[2]]. *)
Definition scenarioB : AggregationDistributionValue :=
  {| count := 2; min := 1; max := 5; mean := 3; sumOfSquaredDev := 8;
     countPerBucket := [1; 1]; bounds := [2%float] |}.

(** [r] is the number [x] with its fraction discarded: the integer of the
    sign of [x] whose magnitude is the largest one not above that of
    [x = (-1)^s * m * 2^e]. *)
Definition truncation (x : spec_float) (r : Z) : Prop :=
  match x with
  | S754_zero _ => r = 0
  | S754_finite s m e =>
      (if s then r <= 0 else 0 <= r)
      /\ Z.abs r * 2 ^ Z.max 0 (- e) <= Zpos m * 2 ^ Z.max 0 e
         < (Z.abs r + 1) * 2 ^ Z.max 0 (- e)
  | _ => False
  end.

(** Bounds in strictly increasing order, each below the next. *)
Fixpoint strictlyIncreasing (bs : list float) : bool :=
  match bs with
  | b :: bs' =>
      match bs' with
      | b' :: _ => (b <? b')%float && strictlyIncreasing bs'
      | [] => true
      end
  | [] => true
  end.

(** The binary64 number nearest to 0.1. *)
Definition tenth : float := 0x1.999999999999ap-4%float.

(** [welfordStep a x a']: the value [a'] is [a] after one more sample,
    the number [x]: count is one more (in [int64] arithmetic); when the new
    count is 1, that is when the count was 0, mean is [x] and
    sumOfSquaredDev is as it was; otherwise mean and sumOfSquaredDev are
    updated by Welford's formulas; min is lowered to [x] if [x < min], max
    is raised to [x] if [x > max]. *)
Definition welfordStep (a : AggregationDistributionValue) (x : float)
  (a' : AggregationDistributionValue) : Prop :=
  count a' = Int64.wrap (count a + 1)
  /\ (count a < Int64.MaxInt64 -> count a' = count a + 1)
  /\ (count a' = 1 <-> count a = 0)
  /\ (count a' = 1 ->
      mean a' = x /\ sumOfSquaredDev a' = sumOfSquaredDev a)
  /\ (count a' <> 1 ->
      mean a' = (mean a + (x - mean a) / Float64.of_int64 (count a'))%float
      /\ sumOfSquaredDev a'
         = (sumOfSquaredDev a + (x - mean a) * (x - mean a'))%float)
  /\ min a' = (if (x <? min a)%float then x else min a)
  /\ max a' = (if (max a <? x)%float then x else max a)
  /\ bounds a' = bounds a.

(** The largest integer not above the dyadic number [n * 2^e]. *)
Definition floorDyadic (n e : Z) : Z :=
  if 0 <=? e then n * 2 ^ e else n / 2 ^ (- e).

(** The dyadic numbers [n * 2^e] and [n' * 2^e'] are the same number. *)
Definition sameDyadic (n e n' e' : Z) : Prop :=
  n * 2 ^ (e - Z.min e e') = n' * 2 ^ (e' - Z.min e e').

(** The exact number [a * f + 1/2], for an integer [a] and a finite
    [float64] number [f], as a dyadic number [(n, e)]. *)
Definition productPlusHalf (a : Z) (f : spec_float) : option (Z * Z) :=
  match f with
  | S754_zero _ => Some (1, -1)
  | S754_finite s m e =>
      let e0 := Z.min e (-1) in
      Some (a * (if s then Zneg m else Zpos m) * 2 ^ (e - e0) + 2 ^ (-1 - e0), e0)
  | _ => None
  end.

(** Round-half-up of the exact product [a * f], in the words of the
    specification: the largest integer not above [a * f + 1/2]. *)
Definition roundHalfUp (a : Z) (f : spec_float) : option Z :=
  match productPlusHalf a f with
  | Some (n, e) => Some (floorDyadic n e)
  | None => None
  end.

Ltac proj_simpl :=
  cbn [count min max mean sumOfSquaredDev countPerBucket bounds].

(** The counter after [addSample] was called with each of [xs] in turn. *)
Definition countSamples (a : AggregationCountValue) (xs : list sample)
  : AggregationCountValue :=
  foldl Count.addSample a xs.

(** The number of the samples [xs] that [incrementBucketCount] places in
    bucket [i] of the bounds [bs]. *)
Definition inBucket (bs xs : list float) (i : nat) : Z :=
  foldr (fun x n => if (Distribution.bucketOf x bs 0 =? i)%nat then n + 1 else n)
    0 xs.

(** The histogram of the samples [xs] over the bounds [bs]. *)
Definition histogram (bs xs : list float) : list Z :=
  inBucket bs xs <$> seq 0 (length bs + 1).

(** * Properties *)

(** ** The order of [float64]

    [<?] and [<=?] on binary64 numbers, read through their specification
    on [spec_float]: every number but NaN has a rank in a lexicographic
    order, and the comparisons are the comparisons of ranks. *)

Module FloatOrderFacts.
Import FloatOrder.

Ltac cases_compare :=
  repeat match goal with
    | |- context [Z.compare ?a ?b] => destruct (Z.compare_spec a b)
    | |- context [Pos.compare_cont Eq ?a ?b] =>
        change (Pos.compare_cont Eq a b) with (Pos.compare a b);
        destruct (Pos.compare_spec a b)
    end.

Lemma SFltb_rank (x y : spec_float) :
  SFltb x y = true <->
  exists k1 k2, rank x = Some k1 /\ rank y = Some k2 /\ rank_lt k1 k2.
Proof.
  unfold SFltb; split.
  - destruct x as [s1|s1| |s1 m1 e1], y as [s2|s2| |s2 m2 e2];
      try destruct s1; try destruct s2; simpl; try discriminate;
      cases_compare; simpl; try discriminate; intros _;
      eexists _, _; (split; [reflexivity|split; [reflexivity|]]);
      unfold rank_lt; subst; lia.
  - intros (k1 & k2 & H1 & H2 & Hlt).
    destruct x as [s1|s1| |s1 m1 e1], y as [s2|s2| |s2 m2 e2];
      try destruct s1; try destruct s2; simpl in *; try discriminate;
      inversion H1; inversion H2; subst; unfold rank_lt in Hlt;
      cases_compare; simpl; subst; try reflexivity; lia.
Qed.

Lemma SFleb_rank (x y : spec_float) :
  SFleb x y = true <->
  exists k1 k2, rank x = Some k1 /\ rank y = Some k2 /\ rank_le k1 k2.
Proof.
  unfold SFleb; split.
  - destruct x as [s1|s1| |s1 m1 e1], y as [s2|s2| |s2 m2 e2];
      try destruct s1; try destruct s2; simpl; try discriminate;
      cases_compare; simpl; try discriminate; intros _;
      eexists _, _; (split; [reflexivity|split; [reflexivity|]]);
      unfold rank_le; subst; lia.
  - intros (k1 & k2 & H1 & H2 & Hle).
    destruct x as [s1|s1| |s1 m1 e1], y as [s2|s2| |s2 m2 e2];
      try destruct s1; try destruct s2; simpl in *; try discriminate;
      inversion H1; inversion H2; subst; unfold rank_le in Hle;
      cases_compare; simpl; subst; try reflexivity; lia.
Qed.

Lemma ltb_lt (x y : float) : (x <? y)%float = true <-> lt x y.
Proof. rewrite FloatAxioms.ltb_spec. apply SFltb_rank. Qed.

Lemma leb_le (x y : float) : (x <=? y)%float = true <-> le x y.
Proof. rewrite FloatAxioms.leb_spec. apply SFleb_rank. Qed.

Lemma ltb_nlt (x y : float) : (x <? y)%float = false <-> ~ lt x y.
Proof. rewrite <- ltb_lt. destruct (x <? y)%float; split; congruence. Qed.

Lemma leb_nle (x y : float) : (x <=? y)%float = false <-> ~ le x y.
Proof. rewrite <- leb_le. destruct (x <=? y)%float; split; congruence. Qed.

(** A number is ordered exactly when it is not NaN. *)
Lemma ordered_is_nan (x : float) : ordered x <-> is_nan x = false.
Proof.
  unfold is_nan, ordered. rewrite FloatAxioms.eqb_spec. unfold SFeqb.
  destruct (Prim2SF x) as [s|s| |s m e]; try destruct s; simpl;
    rewrite ?Z.compare_refl;
    try (change (Pos.compare_cont Eq m m) with (Pos.compare m m);
         rewrite Pos.compare_refl); simpl;
    split; try discriminate; try (intros [k Hk]; discriminate);
    eauto.
Qed.

Ltac ranks :=
  unfold lt, le, ordered in *;
  repeat match goal with
    | H : exists _, _ |- _ => destruct H
    | H : _ /\ _ |- _ => destruct H
    end;
  repeat match goal with
    | H1 : rank ?x = Some ?k1, H2 : rank ?x = Some ?k2 |- _ =>
        rewrite H1 in H2; inversion H2; clear H2; subst
    end;
  repeat match goal with
    | k : (Z * Z * Z)%type |- _ => destruct k as [[? ?] ?]
    end;
  unfold rank_lt, rank_le in *.

Lemma lt_ordered_l (x y : float) : lt x y -> ordered x.
Proof. intros; ranks; eauto. Qed.

Lemma lt_ordered_r (x y : float) : lt x y -> ordered y.
Proof. intros; ranks; eauto. Qed.

Lemma le_ordered_l (x y : float) : le x y -> ordered x.
Proof. intros; ranks; eauto. Qed.

Lemma le_ordered_r (x y : float) : le x y -> ordered y.
Proof. intros; ranks; eauto. Qed.

Lemma le_refl (x : float) : ordered x -> le x x.
Proof.
  intros [[[c e] m] Hk]. exists (c, e, m), (c, e, m).
  repeat split; auto. unfold rank_le. lia.
Qed.

Lemma lt_le (x y : float) : lt x y -> le x y.
Proof. intros; ranks; eexists _, _; repeat split; eauto; simpl; lia. Qed.

Lemma le_trans (x y z : float) : le x y -> le y z -> le x z.
Proof. intros; ranks; eexists _, _; repeat split; eauto; simpl; lia. Qed.

Lemma lt_le_trans (x y z : float) : lt x y -> le y z -> lt x z.
Proof. intros; ranks; eexists _, _; repeat split; eauto; simpl; lia. Qed.

Lemma le_lt_trans (x y z : float) : le x y -> lt y z -> lt x z.
Proof. intros; ranks; eexists _, _; repeat split; eauto; simpl; lia. Qed.

Lemma lt_trans (x y z : float) : lt x y -> lt y z -> lt x z.
Proof. intros; ranks; eexists _, _; repeat split; eauto; simpl; lia. Qed.

Lemma le_not_lt (x y : float) : le x y -> ~ lt y x.
Proof. intros H1 H2; ranks; lia. Qed.

(** The order is total on the numbers that are not NaN. *)
Lemma not_lt_le (x y : float) : ordered x -> ordered y -> ~ lt x y -> le y x.
Proof.
  intros [[[c1 e1] m1] H1] [[[c2 e2] m2] H2] Hn.
  exists (c2, e2, m2), (c1, e1, m1). repeat split; auto.
  unfold rank_le.
  assert (~ rank_lt (c1, e1, m1) (c2, e2, m2)) as Hr
    by (intros Hr; apply Hn; eexists _, _; eauto).
  unfold rank_lt in Hr. lia.
Qed.

End FloatOrderFacts.

(** ** Wrap-around arithmetic *)

Module Int64Facts.
Import Int64.

Lemma wrap_in_range (z : Z) : in_range (wrap z).
Proof.
  unfold in_range, wrap, MinInt64, MaxInt64.
  pose proof (Z.mod_pos_bound (z + 2 ^ 63) (2 ^ 64)). lia.
Qed.

Lemma wrap_small (z : Z) : in_range z -> wrap z = z.
Proof.
  unfold in_range, wrap, MinInt64, MaxInt64. intros H.
  rewrite Z.mod_small; lia.
Qed.

Lemma wrap_add_l (x y : Z) : wrap (wrap x + y) = wrap (x + y).
Proof.
  unfold wrap.
  replace ((x + 2 ^ 63) mod 2 ^ 64 - 2 ^ 63 + y + 2 ^ 63)
    with ((x + 2 ^ 63) mod 2 ^ 64 + y) by lia.
  rewrite Zplus_mod_idemp_l. do 2 f_equal. lia.
Qed.

Lemma wrap_add_r (x y : Z) : wrap (x + wrap y) = wrap (x + y).
Proof. rewrite (Z.add_comm x), wrap_add_l. f_equal. lia. Qed.

Lemma add_comm (x y : Z) : add x y = add y x.
Proof. unfold add. f_equal. lia. Qed.

Lemma add_assoc (x y z : Z) : add x (add y z) = add (add x y) z.
Proof. unfold add. rewrite wrap_add_l, wrap_add_r. f_equal. lia. Qed.

Lemma add_0_r (x : Z) : in_range x -> add x 0 = x.
Proof. intros. unfold add. rewrite Z.add_0_r. now apply wrap_small. Qed.

Lemma add_in_range (x y : Z) : in_range (add x y).
Proof. apply wrap_in_range. Qed.

(** The 64-bit sum is the wrapped sum of the integers. *)
Lemma sum_wrap (l : list Z) : sum l = wrap (foldr Z.add 0 l).
Proof.
  induction l as [|c l IH]; simpl.
  - reflexivity.
  - rewrite IH. unfold add. apply wrap_add_r.
Qed.

Lemma sum_in_range (l : list Z) : in_range (sum l).
Proof. rewrite sum_wrap. apply wrap_in_range. Qed.

Lemma sum_replicate_0 (n : nat) : sum (replicate n 0) = 0.
Proof.
  induction n as [|n IH]; simpl; [reflexivity|].
  rewrite IH. reflexivity.
Qed.

Lemma sum_insert (l : list Z) (i : nat) (c d : Z) :
  l !! i = Some c -> sum (<[i := d]> l) = wrap (sum l - c + d).
Proof.
  rewrite !sum_wrap. revert i.
  induction l as [|x l IH]; intros [|i] Hi; simpl in *; try discriminate.
  - inversion Hi; subst.
    replace (wrap (c + foldr Z.add 0 l) - c + d)
      with (wrap (c + foldr Z.add 0 l) + (d - c)) by lia.
    rewrite wrap_add_l. f_equal. lia.
  - specialize (IH i Hi).
    replace (wrap (foldr Z.add 0 l) - c + d)
      with (wrap (foldr Z.add 0 l) + (d - c)) in IH by lia.
    rewrite wrap_add_l in IH.
    replace (wrap (x + foldr Z.add 0 l) - c + d)
      with (wrap (x + foldr Z.add 0 l) + (d - c)) by lia.
    rewrite wrap_add_l. rewrite <- (wrap_add_r x), IH, wrap_add_r.
    f_equal. lia.
Qed.

Lemma sum_increment (l : list Z) (i : nat) (c : Z) :
  l !! i = Some c -> sum (<[i := add c 1]> l) = add (sum l) 1.
Proof.
  intros Hi. rewrite (sum_insert l i c _ Hi). unfold add.
  rewrite wrap_add_r. f_equal. lia.
Qed.

Lemma sum_zip_with_add (l1 l2 : list Z) :
  length l1 = length l2 ->
  sum (zip_with add l1 l2) = add (sum l1) (sum l2).
Proof.
  revert l2. induction l1 as [|x l1 IH]; intros [|y l2] Hlen;
    simpl in *; try discriminate.
  - reflexivity.
  - rewrite IH by lia. unfold add.
    rewrite !wrap_add_l, !wrap_add_r. f_equal. lia.
Qed.

End Int64Facts.

(** ** The loops over the bucket counts *)

Module Loops.
Import stats stats.Distribution.

Lemma copyFrom_app (pre src dst : list Z) :
  length dst = length src ->
  copyFrom (length pre) src (pre ++ dst) = Done (pre ++ src).
Proof.
  revert pre dst. induction src as [|c src IH]; intros pre [|d dst] Hlen;
    simpl in *; try discriminate.
  - reflexivity.
  - rewrite list_lookup_middle by reflexivity.
    replace (<[length pre := c]> (pre ++ d :: dst)) with ((pre ++ [c]) ++ dst).
    + replace (S (length pre)) with (length (pre ++ [c]))
        by (rewrite length_app; simpl; lia).
      rewrite IH by lia. rewrite <- app_assoc. reflexivity.
    + rewrite insert_app_r_alt by lia. rewrite Nat.sub_diag. simpl.
      rewrite <- app_assoc. reflexivity.
Qed.

Lemma addFrom_app (pre src dst : list Z) :
  length dst = length src ->
  addFrom (length pre) src (pre ++ dst)
  = Done (pre ++ zip_with Int64.add dst src).
Proof.
  revert pre dst. induction src as [|c src IH]; intros pre [|d dst] Hlen;
    simpl in *; try discriminate.
  - reflexivity.
  - rewrite list_lookup_middle by reflexivity.
    replace (<[length pre := Int64.add d c]> (pre ++ d :: dst))
      with ((pre ++ [Int64.add d c]) ++ dst).
    + replace (S (length pre)) with (length (pre ++ [Int64.add d c]))
        by (rewrite length_app; simpl; lia).
      rewrite IH by lia. rewrite <- app_assoc. reflexivity.
    + rewrite insert_app_r_alt by lia. rewrite Nat.sub_diag. simpl.
      rewrite <- app_assoc. reflexivity.
Qed.

Lemma copyFrom_same_length (src dst : list Z) :
  length dst = length src -> copyFrom 0 src dst = Done src.
Proof. intros H. apply (copyFrom_app [] src dst H). Qed.

Lemma addFrom_same_length (src dst : list Z) :
  length dst = length src ->
  addFrom 0 src dst = Done (zip_with Int64.add dst src).
Proof. intros H. apply (addFrom_app [] src dst H). Qed.

Lemma zeroAll_app (pre s : list Z) :
  foldl (fun s' i => <[i := 0]> s') (pre ++ s) (seq (length pre) (length s))
  = pre ++ replicate (length s) 0.
Proof.
  revert pre. induction s as [|c s IH]; intros pre; simpl.
  - reflexivity.
  - rewrite insert_app_r_alt by lia. rewrite Nat.sub_diag. simpl.
    replace (pre ++ 0 :: s) with ((pre ++ [0]) ++ s)
      by (rewrite <- app_assoc; reflexivity).
    replace (S (length pre)) with (length (pre ++ [0]))
      by (rewrite length_app; simpl; lia).
    rewrite IH. rewrite <- app_assoc. reflexivity.
Qed.

Lemma zeroAll_replicate (s : list Z) : zeroAll s = replicate (length s) 0.
Proof. apply (zeroAll_app [] s). Qed.

Lemma sameBuckets_eq (s s2 : list Z) :
  length s = length s2 -> (sameBuckets s s2 = true <-> s = s2).
Proof.
  revert s2. induction s as [|c s IH]; intros [|c2 s2] Hlen;
    simpl in *; try discriminate.
  - split; auto.
  - destruct (Z.eqb_spec c c2) as [->|Hne]; simpl.
    + rewrite IH by lia. split; [intros ->; reflexivity|].
      intros H; inversion H; reflexivity.
    + split; [discriminate|]. intros H; inversion H; contradiction.
Qed.

Lemma increment_lookup (s : list Z) (i : nat) (c : Z) :
  s !! i = Some c -> increment s i = Done (<[i := Int64.add c 1]> s).
Proof. unfold increment. intros ->. reflexivity. Qed.

End Loops.

(** ** The zeroed state, and the count aggregator *)

(** The first rows the tests of the package expect over the bounds [[2]]. *)
Example scenarioB_run :
  (let! a1 := Distribution.addSample
                (Distribution.newAggregationDistributionValue [2%float])
                (VFloat64 1) in
   Distribution.addSample a1 (VFloat64 5)) = Done scenarioB.
Proof. reflexivity. Qed.

Lemma replicate_all_zero (n : nat) : Forall (eq 0) (replicate n 0).
Proof. induction n; simpl; constructor; auto. Qed.

(** C1, as the code has it: a new distribution aggregator, and one after
    [clear], has count 0, mean 0, sumOfSquaredDev 0, every bucket count 0
    (one bucket more than bounds for a new one, the buckets it had after
    [clear]) and min = [math.MaxFloat64], the largest finite number. *)
Theorem zeroed_distribution (bs : list float) (a : AggregationDistributionValue) :
  (count (Distribution.newAggregationDistributionValue bs) = 0
   /\ mean (Distribution.newAggregationDistributionValue bs) = 0%float
   /\ sumOfSquaredDev (Distribution.newAggregationDistributionValue bs) = 0%float
   /\ Forall (eq 0) (countPerBucket (Distribution.newAggregationDistributionValue bs))
   /\ length (countPerBucket (Distribution.newAggregationDistributionValue bs))
      = (length bs + 1)%nat
   /\ min (Distribution.newAggregationDistributionValue bs) = Float64.MaxFloat64)
  /\
  (count (Distribution.clear a) = 0
   /\ mean (Distribution.clear a) = 0%float
   /\ sumOfSquaredDev (Distribution.clear a) = 0%float
   /\ Forall (eq 0) (countPerBucket (Distribution.clear a))
   /\ length (countPerBucket (Distribution.clear a)) = length (countPerBucket a)
   /\ bounds (Distribution.clear a) = bounds a
   /\ min (Distribution.clear a) = Float64.MaxFloat64).
Proof.
  split; simpl.
  - repeat split; auto using replicate_all_zero. apply length_replicate.
  - rewrite Loops.zeroAll_replicate.
    repeat split; auto using replicate_all_zero. apply length_replicate.
Qed.

(** C1, as stated, fails: over the bounds [[2]] the new aggregator, and
    scenario B's after [clear], has a finite min, not +∞, and a positive
    max, not −∞. *)
Lemma zeroed_distribution_sentinels :
  is_infinity (min (Distribution.newAggregationDistributionValue [2%float])) = false
  /\ (max (Distribution.newAggregationDistributionValue [2%float]) =? neg_infinity)%float
     = false
  /\ is_infinity (min (Distribution.clear scenarioB)) = false
  /\ (max (Distribution.clear scenarioB) =? neg_infinity)%float = false
  /\ min (Distribution.newAggregationDistributionValue [2%float]) <> infinity
  /\ max (Distribution.newAggregationDistributionValue [2%float]) <> neg_infinity.
Proof.
  repeat split; try reflexivity.
  - intros H. apply (f_equal is_infinity) in H. vm_compute in H. discriminate.
  - intros H. apply (f_equal is_infinity) in H. vm_compute in H. discriminate.
Qed.

(** The initial max is [math.SmallestNonzeroFloat64], a positive number: a
    first sample below it does not become the max. *)
Lemma negative_sample_max :
  Distribution.addSample (Distribution.newAggregationDistributionValue [2%float])
    (VFloat64 (-1))
  = Done {| count := 1; min := (-1)%float; max := Float64.SmallestNonzeroFloat64;
            mean := (-1)%float; sumOfSquaredDev := 0;
            countPerBucket := [1; 0]; bounds := [2%float] |}.
Proof. reflexivity. Qed.

(** C9: [addSample] on a count aggregator adds one to the counter, in
    [int64] arithmetic, whatever the sample is: the result is the same for
    any two samples, and it is [a + 1] below [math.MaxInt64]. *)
Theorem count_addSample (a : AggregationCountValue) (v w : sample) :
  Count.addSample a v = Int64.wrap (a + 1)
  /\ Count.addSample a v = Count.addSample a w
  /\ (Int64.MinInt64 <= a < Int64.MaxInt64 -> Count.addSample a v = a + 1).
Proof.
  unfold Count.addSample, Int64.add. repeat split.
  intros H. apply Int64Facts.wrap_small.
  unfold Int64.in_range, Int64.MinInt64, Int64.MaxInt64 in *. lia.
Qed.

(** C10: merging across the variants does nothing and comparing across
    them is false: [addToIt] on a count aggregator with a distribution or
    nil argument, and on a distribution aggregator with a count or nil
    argument, returns with the receiver as it was; [equal] across the
    variants, and on a nil distribution pointer, is false. *)
Theorem cross_variant (Pow : float -> float -> float)
  (c : AggregationCountValue) (d : AggregationDistributionValue)
  (p : option AggregationDistributionValue) (q : option AggregationCountValue) :
  Count.addToIt c (DistributionValue p) = Done c
  /\ Count.addToIt c NilValue = Done c
  /\ Distribution.addToIt Pow d (CountValue q) = Done d
  /\ Distribution.addToIt Pow d NilValue = Done d
  /\ Count.equal c (DistributionValue p) = Done false
  /\ Count.equal c NilValue = Done false
  /\ Distribution.equal Pow d (CountValue q) = false
  /\ Distribution.equal Pow d NilValue = false
  /\ Distribution.equal Pow d (DistributionValue None) = false.
Proof. repeat split. Qed.

(** ** Scaling by a fraction *)

Lemma trunc_truncation (s : bool) (m : positive) (e : Z) :
  truncation (S754_finite s m e) (Float64.trunc s m e).
Proof.
  unfold truncation, Float64.trunc.
  destruct (Z.leb_spec 0 e) as [He|He].
  - rewrite Z.shiftl_mul_pow2 by lia.
    rewrite (Z.max_l 0 (- e)), (Z.max_r 0 e) by lia.
    assert (0 < 2 ^ e) by (apply Z.pow_pos_nonneg; lia).
    destruct s; split; try nia; rewrite ?Z.abs_opp, Z.abs_eq; nia.
  - rewrite Z.shiftr_div_pow2 by lia.
    rewrite (Z.max_r 0 (- e)), (Z.max_l 0 e) by lia.
    assert (0 < 2 ^ (- e)) as Hp by (apply Z.pow_pos_nonneg; lia).
    pose proof (Z.div_pos (Zpos m) (2 ^ (- e)) ltac:(lia) Hp) as Hq.
    pose proof (Z.mul_div_le (Zpos m) (2 ^ (- e)) Hp) as Hlo.
    pose proof (Z.mul_succ_div_gt (Zpos m) (2 ^ (- e)) Hp) as Hhi.
    destruct s; split; try lia; rewrite ?Z.abs_opp, Z.abs_eq by lia;
      simpl; lia.
Qed.

Lemma truncation_unique (x : spec_float) (r r' : Z) :
  truncation x r -> truncation x r' -> r = r'.
Proof.
  destruct x as [s|s| |s m e]; simpl; try tauto; try lia.
  intros [Hs [Hlo Hhi]] [Hs' [Hlo' Hhi']].
  assert (0 < 2 ^ Z.max 0 (- e)) by (apply Z.pow_pos_nonneg; lia).
  assert (Z.abs r = Z.abs r') by nia.
  destruct s; lia.
Qed.

Lemma to_int64_truncation (f : float) (r : Z) :
  Float64.to_int64 f = Some r <->
  truncation (Prim2SF f) r /\ Int64.in_range r.
Proof.
  unfold Float64.to_int64, Int64.in_range.
  destruct (Prim2SF f) as [s|s| |s m e] eqn:E.
  - simpl. split; [intros H; inversion H; subst|intros [-> _]; reflexivity].
    unfold Int64.MinInt64, Int64.MaxInt64. lia.
  - simpl. split; [discriminate|tauto].
  - simpl. split; [discriminate|tauto].
  - pose proof (trunc_truncation s m e) as Ht. cbv zeta.
    split.
    + destruct (Z.leb_spec Int64.MinInt64 (Float64.trunc s m e));
        destruct (Z.leb_spec (Float64.trunc s m e) Int64.MaxInt64);
        try discriminate.
      intros H'; inversion H'; subst. split; [exact Ht|lia].
    + intros [Hr Hin].
      rewrite <- (truncation_unique _ _ _ Hr Ht).
      destruct (Z.leb_spec Int64.MinInt64 r);
        destruct (Z.leb_spec r Int64.MaxInt64); try lia. reflexivity.
Qed.

Lemma floorDyadic_scale (n e c : Z) :
  c <= e -> c <= 0 -> floorDyadic n e = n * 2 ^ (e - c) / 2 ^ (- c).
Proof.
  intros Hce Hc0. unfold floorDyadic.
  assert (0 < 2 ^ (- c)) by (apply Z.pow_pos_nonneg; lia).
  destruct (Z.leb_spec 0 e) as [He|He].
  - replace (e - c) with (e + - c) by lia.
    rewrite Z.pow_add_r by lia. rewrite Z.mul_assoc.
    rewrite Z.div_mul by lia. reflexivity.
  - assert (0 < 2 ^ (- e)) by (apply Z.pow_pos_nonneg; lia).
    assert (0 < 2 ^ (e - c)) by (apply Z.pow_pos_nonneg; lia).
    replace (- c) with (- e + (e - c)) by lia.
    rewrite Z.pow_add_r by lia.
    rewrite Z.div_mul_cancel_r by lia. reflexivity.
Qed.

Lemma sameDyadic_floor (n e n' e' : Z) :
  sameDyadic n e n' e' -> floorDyadic n e = floorDyadic n' e'.
Proof.
  unfold sameDyadic. intros H.
  rewrite (floorDyadic_scale n e (Z.min (Z.min e e') 0)) by lia.
  rewrite (floorDyadic_scale n' e' (Z.min (Z.min e e') 0)) by lia.
  f_equal.
  replace (e - Z.min (Z.min e e') 0)
    with ((e - Z.min e e') + (Z.min e e' - Z.min (Z.min e e') 0)) by lia.
  replace (e' - Z.min (Z.min e e') 0)
    with ((e' - Z.min e e') + (Z.min e e' - Z.min (Z.min e e') 0)) by lia.
  rewrite !Z.pow_add_r by lia. rewrite !Z.mul_assoc, H. reflexivity.
Qed.

Lemma trunc_floorDyadic (m : positive) (e : Z) :
  Float64.trunc false m e = floorDyadic (Zpos m) e.
Proof.
  unfold Float64.trunc, floorDyadic.
  destruct (Z.leb_spec 0 e).
  - apply Z.shiftl_mul_pow2. lia.
  - apply Z.shiftr_div_pow2. lia.
Qed.

(** C7, as the code has it: [multiplyByFraction] on a count aggregator
    computes [float64(a) * fraction + 0.5] in [float64] and discards the
    fraction (truncation toward zero): whenever that integer is an [int64],
    it is the new count aggregator, and the receiver is as it was. When the
    [float64] sum is positive and is the exact number [a * fraction + 1/2]
    (neither the product nor the sum was rounded), that integer is
    round-half-up of [a * fraction]. *)
Theorem count_multiplyByFraction (a : AggregationCountValue) (fraction : float)
  (r : Z) :
  truncation (Prim2SF (Float64.of_int64 a * fraction + 0.5)%float) r ->
  Int64.in_range r ->
  Count.multiplyByFraction a fraction = (a, Some r)
  /\ (forall m e n e0,
        Prim2SF (Float64.of_int64 a * fraction + 0.5)%float
        = S754_finite false m e ->
        productPlusHalf a (Prim2SF fraction) = Some (n, e0) ->
        sameDyadic (Zpos m) e n e0 ->
        roundHalfUp a (Prim2SF fraction) = Some r).
Proof.
  intros Ht Hr. split.
  - unfold Count.multiplyByFraction. f_equal.
    apply to_int64_truncation. auto.
  - intros m e n e0 Hy Hp Hsame. unfold roundHalfUp. rewrite Hp. f_equal.
    rewrite Hy in Ht.
    rewrite (truncation_unique _ _ _ Ht (trunc_truncation false m e)).
    rewrite trunc_floorDyadic. symmetry. apply sameDyadic_floor, Hsame.
Qed.

(** A quarter of 10 is 2.5, [2.5 + 0.5] is the exact sum, and its integer
    part 3 is round-half-up of 2.5. *)
Lemma count_multiplyByFraction_witness :
  Count.multiplyByFraction 10 0.25 = (10, Some 3)
  /\ roundHalfUp 10 (Prim2SF 0.25) = Some 3.
Proof.
  assert (truncation (Prim2SF (Float64.of_int64 10 * 0.25 + 0.5)%float) 3) as Ht
    by (vm_compute; repeat split; discriminate).
  assert (Int64.in_range 3) as Hr by (vm_compute; split; discriminate).
  destruct (count_multiplyByFraction 10 0.25 3 Ht Hr) as [E H].
  split; [exact E|].
  apply (H 6755399441055744%positive (-51) 54043195528445952 (-54));
    reflexivity.
Defined.

(** C7, as stated, fails: the result is not always round-half-up of
    [a * f]. The largest [float64] below one half times 1, plus 0.5, rounds
    to 1.0, so the count 1 is returned where round-half-up of the product
    is 0; and a negative sum is truncated toward zero, so 10 times -0.3125
    gives -2 where round-half-up of -3.125 is -3. *)
Lemma count_multiplyByFraction_not_round_half_up :
  Count.multiplyByFraction 1 0x1.fffffffffffffp-2 = (1, Some 1)
  /\ roundHalfUp 1 (Prim2SF 0x1.fffffffffffffp-2) = Some 0
  /\ Count.multiplyByFraction 10 (-0.3125) = (10, Some (-2))
  /\ roundHalfUp 10 (Prim2SF (-0.3125)) = Some (-3).
Proof. repeat split. Qed.

(** Halves go up, and the receiver may be any counter. *)
Example count_multiplyByFraction_values :
  Count.multiplyByFraction 10 0.25 = (10, Some 3)
  /\ Count.multiplyByFraction 10 0.125 = (10, Some 1)
  /\ Count.multiplyByFraction 3 0.5 = (3, Some 2)
  /\ Count.multiplyByFraction 0 0.5 = (0, Some 0)
  /\ Count.multiplyByFraction 7 1 = (7, Some 7).
Proof. repeat split. Qed.

(** The sum and the product are those of [float64]: below one half the
    sum can already round to 1. Where the sum is not an [int64] (here
    2^63), or is NaN, the conversion is left open by Go. *)
Example count_multiplyByFraction_rounding :
  Count.multiplyByFraction 1 0x1.fffffffffffffp-2 = (1, Some 1)
  /\ Count.multiplyByFraction Int64.MaxInt64 1 = (Int64.MaxInt64, None)
  /\ Count.multiplyByFraction 7 nan = (7, None).
Proof. repeat split. Qed.

(** C6: [multiplyByFraction] on a distribution aggregator returns a copy:
    count, min, max, mean, sumOfSquaredDev, bucket counts and bounds are the
    receiver's, whatever the fraction is, and the receiver is as it was. *)
Theorem distribution_multiplyByFraction
  (a : AggregationDistributionValue) (fraction : float) :
  Distribution.wellFormed a ->
  exists ret,
    Distribution.multiplyByFraction a fraction
    = Done (a, DistributionValue (Some ret))
    /\ count ret = count a /\ min ret = min a /\ max ret = max a
    /\ mean ret = mean a /\ sumOfSquaredDev ret = sumOfSquaredDev a
    /\ countPerBucket ret = countPerBucket a /\ bounds ret = bounds a
    /\ forall fraction',
        Distribution.multiplyByFraction a fraction'
        = Distribution.multiplyByFraction a fraction.
Proof.
  intros Hwf. unfold Distribution.wellFormed in Hwf.
  exists a. unfold Distribution.multiplyByFraction. simpl.
  rewrite Loops.copyFrom_same_length
    by (rewrite length_replicate; symmetry; exact Hwf).
  simpl. destruct a; simpl. repeat split.
Qed.

Lemma distribution_multiplyByFraction_witness :
  exists ret,
    Distribution.multiplyByFraction scenarioB 0.25
    = Done (scenarioB, DistributionValue (Some ret))
    /\ count ret = count scenarioB /\ min ret = min scenarioB
    /\ max ret = max scenarioB
    /\ mean ret = mean scenarioB
    /\ sumOfSquaredDev ret = sumOfSquaredDev scenarioB
    /\ countPerBucket ret = countPerBucket scenarioB
    /\ bounds ret = bounds scenarioB
    /\ forall fraction',
        Distribution.multiplyByFraction scenarioB fraction'
        = Distribution.multiplyByFraction scenarioB 0.25.
Proof.
  apply (distribution_multiplyByFraction scenarioB 0.25). reflexivity.
Defined.

(** The copy is made bucket by bucket into a slice of one bucket more
    than bounds: a value built with fewer buckets is copied with the missing
    ones at 0, and one built with more makes the call panic. *)
Example distribution_multiplyByFraction_shape :
  Distribution.multiplyByFraction (mkDistribution 1 1 1 1 0 [1] [2%float]) 1
  = Done (mkDistribution 1 1 1 1 0 [1] [2%float],
          DistributionValue (Some (mkDistribution 1 1 1 1 0 [1; 0] [2%float])))
  /\ Distribution.multiplyByFraction
       (mkDistribution 1 1 1 1 0 [1; 0; 0] [2%float]) 1
     = Panic.
Proof. split; reflexivity. Qed.

(** ** Equality of distribution aggregators *)

Lemma elementwise_eq (s s2 : list Z) :
  s = s2 <->
  length s = length s2
  /\ forall i x y, s !! i = Some x -> s2 !! i = Some y -> x = y.
Proof.
  split.
  - intros ->. split; [reflexivity|]. intros i x y Hx Hy. congruence.
  - intros [Hlen Hall]. apply list_eq. intros i.
    destruct (s !! i) as [x|] eqn:Hx, (s2 !! i) as [y|] eqn:Hy.
    + f_equal. eauto.
    + apply lookup_lt_Some in Hx. apply lookup_ge_None in Hy. lia.
    + apply lookup_ge_None in Hx. apply lookup_lt_Some in Hy. lia.
    + reflexivity.
Qed.

(** C8: [equal] on two distribution aggregators is true exactly when the
    bucket counts have the same length and are equal index by index, the
    counts are equal, min and max are equal as [float64] ([==]), and the
    squares, by [math.Pow], of the difference of the means and of the
    difference of the variances are below 1e-9; the variance is
    sumOfSquaredDev / (count - 1) when count > 1 and 0 otherwise. *)
Theorem distribution_equal (Pow : float -> float -> float)
  (a b : AggregationDistributionValue) :
  (Distribution.equal Pow a (DistributionValue (Some b)) = true <->
   (length (countPerBucket a) = length (countPerBucket b)
    /\ forall i x y,
        countPerBucket a !! i = Some x -> countPerBucket b !! i = Some y -> x = y)
   /\ count a = count b
   /\ (min a =? min b)%float = true
   /\ (max a =? max b)%float = true
   /\ (Pow (mean a - mean b) 2 <? Distribution.epsilon)%float = true
   /\ (Pow (Distribution.variance a - Distribution.variance b) 2
       <? Distribution.epsilon)%float = true)
  /\ (1 < count a <= Int64.MaxInt64 ->
      Distribution.variance a
      = (sumOfSquaredDev a / Float64.of_int64 (count a - 1))%float)
  /\ (count a <= 1 -> Distribution.variance a = 0%float)
  /\ Distribution.epsilon = (1 / 1e9)%float.
Proof.
  repeat split.
  - unfold Distribution.equal in H.
    destruct (Nat.eqb_spec (length (countPerBucket a)) (length (countPerBucket b)));
      simpl in H; [assumption|discriminate].
  - revert H. unfold Distribution.equal.
    destruct (Nat.eqb_spec (length (countPerBucket a)) (length (countPerBucket b)))
      as [Hlen|]; simpl; [|discriminate].
    destruct (Distribution.sameBuckets (countPerBucket a) (countPerBucket b))
      eqn:Hs; simpl; [|discriminate].
    intros _. apply Loops.sameBuckets_eq in Hs; [|exact Hlen].
    apply elementwise_eq in Hs. apply Hs.
  - revert H. unfold Distribution.equal, Distribution.Count.
    destruct (negb _); [discriminate|]. destruct (negb _); [discriminate|].
    rewrite !andb_true_iff, Z.eqb_eq. tauto.
  - revert H. unfold Distribution.equal, Distribution.Min.
    destruct (negb _); [discriminate|]. destruct (negb _); [discriminate|].
    rewrite !andb_true_iff. tauto.
  - revert H. unfold Distribution.equal, Distribution.Max.
    destruct (negb _); [discriminate|]. destruct (negb _); [discriminate|].
    rewrite !andb_true_iff. tauto.
  - revert H. unfold Distribution.equal, Distribution.Mean.
    destruct (negb _); [discriminate|]. destruct (negb _); [discriminate|].
    rewrite !andb_true_iff. tauto.
  - revert H. unfold Distribution.equal.
    destruct (negb _); [discriminate|]. destruct (negb _); [discriminate|].
    rewrite !andb_true_iff. tauto.
  - intros [Hb (Hc & Hmin & Hmax & Hmean & Hvar)].
    unfold Distribution.equal, Distribution.Count, Distribution.Min,
      Distribution.Max, Distribution.Mean.
    destruct Hb as [Hlen Hall].
    rewrite Hlen, Nat.eqb_refl. simpl.
    assert (countPerBucket a = countPerBucket b) as Hs
      by (apply elementwise_eq; auto).
    apply Loops.sameBuckets_eq in Hs; [|exact Hlen]. rewrite Hs. simpl.
    rewrite Hc, Z.eqb_refl, Hmin, Hmax, Hmean, Hvar. reflexivity.
  - intros [Hlo Hhi]. unfold Distribution.variance,
      Distribution.SumOfSquaredDeviation.
    destruct (Z.leb_spec (count a) 1); [lia|].
    unfold Int64.sub. rewrite Int64Facts.wrap_small; [reflexivity|].
    unfold Int64.in_range, Int64.MinInt64 in *. lia.
  - intros Hc. unfold Distribution.variance.
    destruct (Z.leb_spec (count a) 1); [reflexivity|lia].
Qed.

(** The samples 1, 5, 3, 3 over the bounds [[2]] leave a value [equal] to
    the row the tests of the package expect, whose sumOfSquaredDev
    (0x1.0000000000006p+3, the constant 2.66666666666667 * 3) is within the
    tolerance. *)
Example distribution_equal_test_row :
  (let! a1 := Distribution.addSample
                (Distribution.newAggregationDistributionValue [2%float])
                (VFloat64 1) in
   let! a2 := Distribution.addSample a1 (VFloat64 5) in
   let! a3 := Distribution.addSample a2 (VFloat64 3) in
   let! a4 := Distribution.addSample a3 (VFloat64 3) in
   Done (a4,
         Distribution.equal square a4
           (DistributionValue (Some
              (mkDistribution 4 1 5 3 0x1.0000000000006p+3 [1; 3] [2%float])))))
  = Done (mkDistribution 4 1 5 3 8 [1; 3] [2%float], true).
Proof. reflexivity. Qed.

(** [==] on [float64] is not identity: NaN differs from itself, so a value
    whose min is NaN is not [equal] to itself. *)
Example distribution_equal_nan :
  Distribution.equal square
    {| count := 1; min := nan; max := 1; mean := 1; sumOfSquaredDev := 0;
       countPerBucket := [1]; bounds := [] |}
    (DistributionValue (Some
    {| count := 1; min := nan; max := 1; mean := 1; sumOfSquaredDev := 0;
       countPerBucket := [1]; bounds := [] |})) = false.
Proof. reflexivity. Qed.

(** ** Recording a sample *)

Lemma bucketOf_shift (f : float) (bs : list float) (i : nat) :
  Distribution.bucketOf f bs i = (i + Distribution.bucketOf f bs 0)%nat.
Proof.
  revert i. induction bs as [|b bs IH]; intros i; simpl.
  - lia.
  - destruct (f <? b)%float; [lia|].
    rewrite (IH (S i)), (IH 1%nat). lia.
Qed.

Lemma bucketOf_bound (f : float) (bs : list float) :
  (Distribution.bucketOf f bs 0 <= length bs)%nat.
Proof.
  induction bs as [|b bs IH]; simpl; [lia|].
  destruct (f <? b)%float; [lia|]. rewrite bucketOf_shift. lia.
Qed.

(** The index the loop stops at is the first one whose bound is above
    [f]. *)
Lemma bucketOf_first (f : float) (bs : list float) :
  (forall j b, (j < Distribution.bucketOf f bs 0)%nat ->
               bs !! j = Some b -> (f <? b)%float = false)
  /\ ((Distribution.bucketOf f bs 0 < length bs)%nat ->
      exists b, bs !! Distribution.bucketOf f bs 0 = Some b
                /\ (f <? b)%float = true).
Proof.
  induction bs as [|b bs [IHlo IHhi]]; simpl.
  - split; intros; lia.
  - destruct (f <? b)%float eqn:Hb.
    + split; [intros; lia|]. intros _. exists b. auto.
    + rewrite bucketOf_shift. split.
      * intros [|j] b' Hj Hl; simpl in Hl.
        -- inversion Hl; subst. exact Hb.
        -- apply (IHlo j); [lia|exact Hl].
      * intros Hlt. simpl. apply IHhi. lia.
Qed.

(** [addSample] with a numeric sample, on a value of the right shape,
    returns, and this is the value it leaves. *)
Lemma addSample_numeric (a : AggregationDistributionValue) (v : sample) (f : float) :
  Distribution.wellFormed a ->
  Distribution.numeric v = Some f ->
  exists c,
    countPerBucket a !! Distribution.bucketOf f (bounds a) 0 = Some c
    /\ Distribution.addSample a v
       = Done
           (let count1 := Int64.add (count a) 1 in
            let mean1 :=
              (mean a + (f - mean a) / Float64.of_int64 count1)%float in
            {| count := count1;
               min := if (f <? min a)%float then f else min a;
               max := if (max a <? f)%float then f else max a;
               mean := if count1 =? 1 then f else mean1;
               sumOfSquaredDev :=
                 if count1 =? 1 then sumOfSquaredDev a
                 else (sumOfSquaredDev a + (f - mean a) * (f - mean1))%float;
               countPerBucket :=
                 <[Distribution.bucketOf f (bounds a) 0 := Int64.add c 1]>
                   (countPerBucket a);
               bounds := bounds a |}).
Proof.
  intros Hwf Hv. unfold Distribution.wellFormed in Hwf.
  pose proof (bucketOf_bound f (bounds a)) as Hb.
  destruct (lookup_lt_is_Some_2 (countPerBucket a)
              (Distribution.bucketOf f (bounds a) 0) ltac:(lia)) as [c Hc].
  exists c. split; [exact Hc|].
  unfold Distribution.addSample. rewrite Hv.
  unfold Distribution.incrementBucketCount. cbn [bounds countPerBucket].
  assert (Distribution.increment (countPerBucket a)
            (if (length (bounds a) =? 0)%nat then 0%nat
             else Distribution.bucketOf f (bounds a) 0)
          = Done (<[Distribution.bucketOf f (bounds a) 0 := Int64.add c 1]>
                    (countPerBucket a))) as Hinc.
  { destruct (bounds a) as [|b bs] eqn:Hbs; simpl (length _ =? 0)%nat; cbv iota.
    - simpl in Hc |- *. apply Loops.increment_lookup. exact Hc.
    - apply Loops.increment_lookup. exact Hc. }
  destruct (length (bounds a) =? 0)%nat; rewrite Hinc; cbn;
    destruct (Int64.add (count a) 1 =? 1); reflexivity.
Qed.

Lemma addSample_welfordStep (a : AggregationDistributionValue) (v : sample)
  (x : float) :
  Distribution.wellFormed a ->
  Int64.in_range (count a) ->
  Distribution.numeric v = Some x ->
  exists a', Distribution.addSample a v = Done a' /\ welfordStep a x a'.
Proof.
  intros Hwf Hc Hx.
  destruct (addSample_numeric a v x Hwf Hx) as (c & _ & Heq).
  eexists. split; [exact Heq|]. unfold welfordStep. cbv zeta.
  cbn [count mean sumOfSquaredDev min max bounds].
  assert (Int64.add (count a) 1 = 1 <-> count a = 0) as H1.
  { unfold Int64.add, Int64.wrap, Int64.in_range, Int64.MinInt64,
      Int64.MaxInt64 in *.
    split; [|intros ->; reflexivity].
    intros H.
    destruct (Z.eq_dec (count a) (2 ^ 63 - 1)) as [E|E].
    - rewrite E in H. vm_compute in H. discriminate.
    - rewrite Z.mod_small in H by lia. lia. }
  split; [reflexivity|].
  split.
  { intros Hlt. apply Int64Facts.wrap_small.
    unfold Int64.in_range, Int64.MinInt64, Int64.MaxInt64 in *. lia. }
  split; [exact H1|].
  split.
  { intros E. rewrite E. split; reflexivity. }
  split.
  { intros E.
    destruct (Z.eqb_spec (Int64.add (count a) 1) 1); [contradiction|].
    split; reflexivity. }
  repeat split.
Qed.

(** C2: [addSample] on a distribution aggregator of count [c] with a
    [float64] sample [x], or with an [int64] sample, taken as the number
    [x = float64(sample)], returns with count [c + 1] (in [int64]
    arithmetic); when the new count is 1, that is when [c = 0], mean is [x]
    and sumOfSquaredDev is as it was; otherwise mean is
    [mean + (x - mean) / (c + 1)] and sumOfSquaredDev is
    [sumOfSquaredDev + (x - oldMean) * (x - newMean)]; min is [x] if
    [x < min], max is [x] if [x > max]. With a sample of any other type
    the call returns and nothing has changed. *)
Theorem distribution_addSample (a : AggregationDistributionValue) :
  Distribution.wellFormed a ->
  Int64.in_range (count a) ->
  (forall x : float,
      exists a', Distribution.addSample a (VFloat64 x) = Done a'
                 /\ welfordStep a x a')
  /\ (forall z : Z,
        exists a', Distribution.addSample a (VInt64 z) = Done a'
                   /\ welfordStep a (Float64.of_int64 z) a')
  /\ (forall z : Z, Distribution.addSample a (VInt z) = Done a)
  /\ (forall s : string, Distribution.addSample a (VString s) = Done a)
  /\ (forall b : bool, Distribution.addSample a (VBool b) = Done a)
  /\ Distribution.addSample a VNil = Done a.
Proof.
  intros Hwf Hc.
  split; [intros x; apply (addSample_welfordStep a (VFloat64 x) x Hwf Hc eq_refl)|].
  split; [intros z;
          apply (addSample_welfordStep a (VInt64 z) _ Hwf Hc eq_refl)|].
  repeat split.
Qed.

(** The second sample, 5, on the value holding the sample 1: the value of
    scenario B, with count 2, mean 1 + (5 - 1) / 2 = 3 and sumOfSquaredDev
    0 + (5 - 1) * (5 - 3) = 8. *)
Lemma distribution_addSample_witness :
  Distribution.addSample (mkDistribution 1 1 1 1 0 [1; 0] [2%float]) (VFloat64 5)
  = Done scenarioB
  /\ Distribution.addSample (mkDistribution 1 1 1 1 0 [1; 0] [2%float]) (VInt64 5)
     = Done scenarioB
  /\ welfordStep (mkDistribution 1 1 1 1 0 [1; 0] [2%float]) 5 scenarioB
  /\ Distribution.addSample (mkDistribution 1 1 1 1 0 [1; 0] [2%float])
       (VString "5")
     = Done (mkDistribution 1 1 1 1 0 [1; 0] [2%float]).
Proof.
  assert (Distribution.wellFormed (mkDistribution 1 1 1 1 0 [1; 0] [2%float]))
    as Hwf by reflexivity.
  assert (Int64.in_range (count (mkDistribution 1 1 1 1 0 [1; 0] [2%float])))
    as Hc by (vm_compute; split; discriminate).
  destruct (distribution_addSample _ Hwf Hc) as (Hf & Hi & _ & Hs & _).
  destruct (Hf 5%float) as (a' & Ha' & Hw).
  assert (a' = scenarioB) as -> by (vm_compute in Ha'; inversion Ha'; reflexivity).
  split; [reflexivity|]. split; [reflexivity|]. split; [exact Hw|].
  apply Hs.
Defined.

(** The samples of the two numeric types are taken, an [int64] through its
    conversion to [float64]; a sample of any other type is not. *)
Example numeric_samples :
  Distribution.numeric (VInt64 5) = Some 5%float
  /\ Distribution.numeric (VFloat64 5) = Some 5%float
  /\ Distribution.numeric (VInt 5) = None
  /\ Distribution.numeric (VString "5") = None
  /\ Distribution.numeric (VBool true) = None
  /\ Distribution.numeric VNil = None.
Proof. repeat split. Qed.

(** ** Bucket placement *)

Lemma strictlyIncreasing_last (bs : list float) (j : nat) (b l : float) :
  strictlyIncreasing bs = true ->
  bs !! j = Some b -> last bs = Some l ->
  b = l \/ FloatOrder.lt b l.
Proof.
  revert j b. induction bs as [|b0 bs IH]; intros j b Hinc Hj Hl.
  - discriminate.
  - destruct bs as [|b1 bs].
    + destruct j; simpl in Hj; [|discriminate].
      simpl in Hl. left. congruence.
    + change (last (b0 :: b1 :: bs)) with (last (b1 :: bs)) in Hl.
      cbn [strictlyIncreasing] in Hinc. apply andb_true_iff in Hinc.
      destruct Hinc as [H01 Hinc]. apply FloatOrderFacts.ltb_lt in H01.
      destruct j as [|j]; simpl in Hj.
      * inversion Hj; subst. right.
        destruct (IH 0%nat b1 Hinc eq_refl Hl) as [->|Hlt]; [exact H01|].
        eapply FloatOrderFacts.lt_trans; eauto.
      * apply (IH j b Hinc Hj Hl).
Qed.

(** C4: [addSample] with a numeric sample [x] adds one to exactly one
    bucket count, the one at the first index [i] with [x < bounds[i]], or
    the last one, at index [len(bounds)], when no bound is above [x]; over
    strictly increasing bounds that is the case when [x] is at least the
    last bound, and for a number [x] only then; with no bounds it is the
    bucket at index 0. *)
Theorem bucket_placement (a : AggregationDistributionValue) (v : sample) (x : float) :
  Distribution.wellFormed a ->
  strictlyIncreasing (bounds a) = true ->
  Distribution.numeric v = Some x ->
  exists a' i c,
    Distribution.addSample a v = Done a'
    /\ countPerBucket a !! i = Some c
    /\ countPerBucket a' !! i = Some (Int64.add c 1)
    /\ (forall j, j <> i -> countPerBucket a' !! j = countPerBucket a !! j)
    /\ length (countPerBucket a') = length (countPerBucket a)
    /\ (i <= length (bounds a))%nat
    /\ (forall j b, (j < i)%nat -> bounds a !! j = Some b -> (x <? b)%float = false)
    /\ ((i < length (bounds a))%nat ->
        exists b, bounds a !! i = Some b /\ (x <? b)%float = true)
    /\ (forall l, last (bounds a) = Some l ->
                  (l <=? x)%float = true -> i = length (bounds a))
    /\ (forall l, last (bounds a) = Some l ->
                  is_nan x = false -> is_nan l = false ->
                  i = length (bounds a) -> (l <=? x)%float = true)
    /\ (bounds a = [] -> i = 0%nat).
Proof.
  intros Hwf Hinc Hx.
  destruct (addSample_numeric a v x Hwf Hx) as (c & Hc & Heq).
  pose proof (bucketOf_bound x (bounds a)) as Hb.
  destruct (bucketOf_first x (bounds a)) as [Hlo Hhi].
  eexists _, (Distribution.bucketOf x (bounds a) 0), c.
  split; [exact Heq|]. cbv zeta. cbn [countPerBucket].
  split; [exact Hc|].
  split; [apply list_lookup_insert_eq; eapply lookup_lt_Some; exact Hc|].
  split; [intros j Hj; apply list_lookup_insert_ne; congruence|].
  split; [apply length_insert|].
  split; [exact Hb|]. split; [exact Hlo|]. split; [exact Hhi|].
  split; [|split].
  - intros l Hl Hle. apply FloatOrderFacts.leb_le in Hle.
    destruct (Nat.eq_dec (Distribution.bucketOf x (bounds a) 0) (length (bounds a)))
      as [E|E]; [exact E|exfalso].
    destruct (Hhi ltac:(lia)) as (b & Hbi & Hlt).
    apply FloatOrderFacts.ltb_lt in Hlt.
    destruct (strictlyIncreasing_last _ _ _ _ Hinc Hbi Hl) as [->|Hbl].
    + exact (FloatOrderFacts.le_not_lt _ _ Hle Hlt).
    + apply (FloatOrderFacts.le_not_lt _ _ Hle).
      eapply FloatOrderFacts.lt_trans; eauto.
  - intros l Hl Hnx Hnl E.
    apply FloatOrderFacts.leb_le. apply FloatOrderFacts.not_lt_le.
    + apply FloatOrderFacts.ordered_is_nan. exact Hnx.
    + apply FloatOrderFacts.ordered_is_nan. exact Hnl.
    + apply FloatOrderFacts.ltb_nlt.
      assert (bounds a !! (length (bounds a) - 1)%nat = Some l) as Hll.
      { rewrite last_lookup in Hl. rewrite <- Hl. f_equal.
        destruct (bounds a); simpl; lia. }
      assert (length (bounds a) - 1 < length (bounds a))%nat as Hlen
        by (eapply lookup_lt_Some; exact Hll).
      apply (Hlo (length (bounds a) - 1)%nat l); [lia|exact Hll].
  - intros E. rewrite E. reflexivity.
Qed.

Lemma bucket_placement_witness :
  exists a' i c,
    Distribution.addSample scenarioB (VFloat64 2) = Done a'
    /\ countPerBucket scenarioB !! i = Some c
    /\ countPerBucket a' !! i = Some (Int64.add c 1)
    /\ (forall j, j <> i -> countPerBucket a' !! j = countPerBucket scenarioB !! j)
    /\ length (countPerBucket a') = length (countPerBucket scenarioB)
    /\ (i <= length (bounds scenarioB))%nat
    /\ (forall j b, (j < i)%nat -> bounds scenarioB !! j = Some b ->
                    (2 <? b)%float = false)
    /\ ((i < length (bounds scenarioB))%nat ->
        exists b, bounds scenarioB !! i = Some b /\ (2 <? b)%float = true)
    /\ (forall l, last (bounds scenarioB) = Some l ->
                  (l <=? 2)%float = true -> i = length (bounds scenarioB))
    /\ (forall l, last (bounds scenarioB) = Some l ->
                  is_nan 2 = false -> is_nan l = false ->
                  i = length (bounds scenarioB) -> (l <=? 2)%float = true)
    /\ (bounds scenarioB = [] -> i = 0%nat).
Proof.
  apply (bucket_placement scenarioB (VFloat64 2) 2); reflexivity.
Defined.

(** The comparison is strict: a sample equal to a bound goes to the bucket
    above it; NaN is below no bound and goes to the last bucket. *)
Example bucket_placement_values :
  Distribution.bucketOf 1 [2; 4]%float 0 = 0%nat
  /\ Distribution.bucketOf 2 [2; 4]%float 0 = 1%nat
  /\ Distribution.bucketOf 3 [2; 4]%float 0 = 1%nat
  /\ Distribution.bucketOf 4 [2; 4]%float 0 = 2%nat
  /\ Distribution.bucketOf nan [2; 4]%float 0 = 2%nat
  /\ Distribution.bucketOf 7 [] 0 = 0%nat.
Proof. repeat split. Qed.

(** ** Merging *)

(** [addToIt] with a distribution argument of the same shape returns, and
    this is the value it leaves. *)
Lemma addToIt_distribution (Pow : float -> float -> float)
  (a other : AggregationDistributionValue) :
  length (countPerBucket a) = length (countPerBucket other) ->
  Distribution.addToIt Pow a (DistributionValue (Some other))
  = Done
      (if count other =? 0 then a
       else
         {| count := Int64.add (count a) (count other);
            min := if (min other <? min a)%float then min other else min a;
            max := if (max a <? max other)%float then max other else max a;
            mean :=
              ((mean a * Float64.of_int64 (count a)
                + mean other * Float64.of_int64 (count other))
               / Float64.of_int64 (Int64.add (count a) (count other)))%float;
            sumOfSquaredDev :=
              (sumOfSquaredDev a + sumOfSquaredDev other
               + Pow (mean other - mean a) 2
                 * Float64.of_int64 (Int64.mul (count a) (count other))
                 / Float64.of_int64 (Int64.add (count a) (count other)))%float;
            countPerBucket :=
              zip_with Int64.add (countPerBucket a) (countPerBucket other);
            bounds := bounds a |}).
Proof.
  intros Hlen. unfold Distribution.addToIt, Distribution.Sum.
  destruct (count other =? 0); [reflexivity|].
  rewrite Loops.addFrom_same_length by exact Hlen. reflexivity.
Qed.

(** C3: [a.addToIt(b)] on two distribution aggregators over the same
    bounds changes nothing when [b.count = 0]; otherwise min becomes the
    lesser of the two mins and max the greater of the two maxes,
    sumOfSquaredDev becomes
    [a.sumSq + b.sumSq + (b.mean - a.mean)^2 * (a.count * b.count) / (a.count + b.count)],
    mean becomes [(a.mean * a.count + b.mean * b.count) / (a.count + b.count)],
    count becomes [a.count + b.count] and the bucket counts are added index
    by index. The product and the sum of the counts are taken in [int64]
    and then converted, so they are the product and the sum of the counts
    whenever these are [int64] values; the other operations are those of
    [float64], in the order the formulas are written. *)
Theorem distribution_addToIt (Pow : float -> float -> float)
  (a b : AggregationDistributionValue) :
  Distribution.wellFormed a ->
  Distribution.wellFormed b ->
  bounds a = bounds b ->
  (count b = 0 ->
   Distribution.addToIt Pow a (DistributionValue (Some b)) = Done a)
  /\ (count b <> 0 ->
      exists a',
        Distribution.addToIt Pow a (DistributionValue (Some b)) = Done a'
        /\ min a' = (if (min b <? min a)%float then min b else min a)
        /\ max a' = (if (max a <? max b)%float then max b else max a)
        /\ (is_nan (min a) = false -> is_nan (min b) = false ->
            (min a' <=? min a)%float = true /\ (min a' <=? min b)%float = true)
        /\ (is_nan (max a) = false -> is_nan (max b) = false ->
            (max a <=? max a')%float = true /\ (max b <=? max a')%float = true)
        /\ sumOfSquaredDev a'
           = (sumOfSquaredDev a + sumOfSquaredDev b
              + Pow (mean b - mean a) 2
                * Float64.of_int64 (Int64.wrap (count a * count b))
                / Float64.of_int64 (Int64.wrap (count a + count b)))%float
        /\ (Int64.in_range (count a * count b) ->
            Int64.in_range (count a + count b) ->
            sumOfSquaredDev a'
            = (sumOfSquaredDev a + sumOfSquaredDev b
               + Pow (mean b - mean a) 2
                 * Float64.of_int64 (count a * count b)
                 / Float64.of_int64 (count a + count b))%float)
        /\ mean a'
           = ((mean a * Float64.of_int64 (count a)
               + mean b * Float64.of_int64 (count b))
              / Float64.of_int64 (Int64.wrap (count a + count b)))%float
        /\ (Int64.in_range (count a + count b) ->
            mean a'
            = ((mean a * Float64.of_int64 (count a)
                + mean b * Float64.of_int64 (count b))
               / Float64.of_int64 (count a + count b))%float)
        /\ count a' = Int64.wrap (count a + count b)
        /\ (Int64.in_range (count a + count b) -> count a' = count a + count b)
        /\ length (countPerBucket a') = length (countPerBucket a)
        /\ (forall i x y,
              countPerBucket a !! i = Some x -> countPerBucket b !! i = Some y ->
              countPerBucket a' !! i = Some (Int64.add x y))
        /\ bounds a' = bounds a).
Proof.
  intros Hwa Hwb Hbs.
  assert (length (countPerBucket a) = length (countPerBucket b)) as Hlen
    by (unfold Distribution.wellFormed in *; congruence).
  rewrite (addToIt_distribution Pow a b Hlen). split.
  - intros ->. reflexivity.
  - intros Hc. destruct (Z.eqb_spec (count b) 0) as [|_]; [contradiction|].
    eexists. split; [reflexivity|]. cbn [count min max mean sumOfSquaredDev
                                           countPerBucket bounds].
    split; [reflexivity|]. split; [reflexivity|].
    split.
    { intros Ha Hb. apply FloatOrderFacts.ordered_is_nan in Ha, Hb.
      rewrite !FloatOrderFacts.leb_le.
      destruct (min b <? min a)%float eqn:E.
      - apply FloatOrderFacts.ltb_lt in E. split.
        + apply FloatOrderFacts.lt_le, E.
        + apply FloatOrderFacts.le_refl, Hb.
      - apply FloatOrderFacts.ltb_nlt in E. split.
        + apply FloatOrderFacts.le_refl, Ha.
        + apply FloatOrderFacts.not_lt_le; assumption. }
    split.
    { intros Ha Hb. apply FloatOrderFacts.ordered_is_nan in Ha, Hb.
      rewrite !FloatOrderFacts.leb_le.
      destruct (max a <? max b)%float eqn:E.
      - apply FloatOrderFacts.ltb_lt in E. split.
        + apply FloatOrderFacts.lt_le, E.
        + apply FloatOrderFacts.le_refl, Hb.
      - apply FloatOrderFacts.ltb_nlt in E. split.
        + apply FloatOrderFacts.le_refl, Ha.
        + apply FloatOrderFacts.not_lt_le; assumption. }
    split; [reflexivity|].
    split.
    { intros Hm Hs. unfold Int64.mul, Int64.add.
      rewrite (Int64Facts.wrap_small _ Hm), (Int64Facts.wrap_small _ Hs).
      reflexivity. }
    split; [reflexivity|].
    split.
    { intros Hs. unfold Int64.add. rewrite (Int64Facts.wrap_small _ Hs).
      reflexivity. }
    split; [reflexivity|].
    split; [intros Hr; apply Int64Facts.wrap_small, Hr|].
    split; [rewrite length_zip_with; lia|].
    split; [|reflexivity].
    intros i x y Hx Hy. rewrite lookup_zip_with, Hx, Hy. reflexivity.
Qed.

(** The value holding the sample 5 merged into the value holding the
    sample 1: the difference of the means is 4, and the result is the value
    of scenario B, with sumOfSquaredDev 0 + 0 + 4^2 * (1 * 1) / (1 + 1) = 8
    and mean (1 * 1 + 5 * 1) / (1 + 1) = 3; the zeroed value merged into it
    changes nothing. *)
Lemma distribution_addToIt_witness :
  Distribution.addToIt square (mkDistribution 1 1 1 1 0 [1; 0] [2%float])
    (DistributionValue (Some (mkDistribution 1 5 5 5 0 [0; 1] [2%float])))
  = Done scenarioB
  /\ sumOfSquaredDev scenarioB
     = (0 + 0 + square (5 - 1) 2 * Float64.of_int64 (1 * 1)
                / Float64.of_int64 (1 + 1))%float
  /\ mean scenarioB
     = ((1 * Float64.of_int64 1 + 5 * Float64.of_int64 1)
        / Float64.of_int64 (1 + 1))%float
  /\ count scenarioB = 1 + 1
  /\ Distribution.addToIt square scenarioB
       (DistributionValue
          (Some (Distribution.newAggregationDistributionValue [2%float])))
     = Done scenarioB.
Proof.
  destruct (distribution_addToIt square
              (mkDistribution 1 1 1 1 0 [1; 0] [2%float])
              (mkDistribution 1 5 5 5 0 [0; 1] [2%float])
              eq_refl eq_refl eq_refl) as [_ H].
  destruct (H ltac:(discriminate))
    as (a' & Ha' & _ & _ & _ & _ & _ & Hsq & _ & Hmean & _ & Hcount & _).
  assert (a' = scenarioB) as -> by (vm_compute in Ha'; inversion Ha'; reflexivity).
  assert (Int64.in_range (1 * 1)) as Hm by (vm_compute; split; discriminate).
  assert (Int64.in_range (1 + 1)) as Hs by (vm_compute; split; discriminate).
  split; [reflexivity|].
  split; [exact (Hsq Hm Hs)|].
  split; [exact (Hmean Hs)|].
  split; [exact (Hcount Hs)|].
  destruct (distribution_addToIt square scenarioB
              (Distribution.newAggregationDistributionValue [2%float])
              eq_refl eq_refl eq_refl) as [H0 _].
  apply H0. reflexivity.
Defined.

(** The product of the counts is taken in [int64] before it is converted:
    for two values of count 3037000500 each it wraps to a negative number,
    and with means 0 and 1 the merged sumOfSquaredDev is negative. *)
Example distribution_addToIt_product_wraps :
  Int64.in_range 3037000500
  /\ Int64.wrap (3037000500 * 3037000500) = -9223372036709301616
  /\ exists a',
       Distribution.addToIt square
         (mkDistribution 3037000500 0 0 0 0 [3037000500] [])
         (DistributionValue
            (Some (mkDistribution 3037000500 1 1 1 0 [3037000500] [])))
       = Done a'
       /\ (sumOfSquaredDev a' <? 0)%float = true.
Proof.
  split; [vm_compute; split; discriminate|].
  split; [reflexivity|].
  eexists. split; reflexivity.
Qed.

(** Scenario B's value merged into a value holding the sample 3. *)
Example distribution_addToIt_values :
  Distribution.addToIt square
    (mkDistribution 1 3 3 3 0 [0; 1] [2%float])
    (DistributionValue (Some scenarioB))
  = Done (mkDistribution 3 1 5 3 8 [1; 2] [2%float]).
Proof. reflexivity. Qed.

(** ** Invariants of the reachable values *)

(** While the bucket counts are non-negative and their sum fits, the
    64-bit additions are the additions of integers. *)
Lemma lookup_le_sum (l : list Z) (i : nat) (c : Z) :
  Forall (Z.le 0) l -> l !! i = Some c -> 0 <= c <= foldr Z.add 0 l.
Proof.
  intros Hl. revert i. induction Hl as [|x l Hx Hl IH]; intros [|i] Hi;
    simpl in *; try discriminate.
  - inversion Hi; subst.
    assert (0 <= foldr Z.add 0 l)
      by (clear -Hl; induction Hl; simpl; lia).
    lia.
  - specialize (IH i Hi). lia.
Qed.

Lemma increment_exact (l : list Z) (i : nat) (c : Z) :
  Forall (Z.le 0) l -> l !! i = Some c ->
  foldr Z.add 0 l < Int64.MaxInt64 ->
  Forall (Z.le 0) (<[i := Int64.add c 1]> l)
  /\ foldr Z.add 0 (<[i := Int64.add c 1]> l) = foldr Z.add 0 l + 1.
Proof.
  intros Hl Hi Hs. pose proof (lookup_le_sum l i c Hl Hi) as Hc.
  assert (Int64.add c 1 = c + 1) as ->.
  { apply Int64Facts.wrap_small.
    unfold Int64.in_range, Int64.MinInt64, Int64.MaxInt64 in *. lia. }
  split.
  - apply Forall_insert; [exact Hl|lia].
  - clear Hs Hc. revert i Hi. induction l as [|x l IH]; intros [|i] Hi;
      simpl in *; try discriminate.
    + inversion Hi; subst. lia.
    + inversion Hl; subst. rewrite (IH ltac:(assumption) i Hi). lia.
Qed.

Lemma zip_add_exact (l1 l2 : list Z) :
  length l1 = length l2 ->
  Forall (Z.le 0) l1 -> Forall (Z.le 0) l2 ->
  foldr Z.add 0 l1 + foldr Z.add 0 l2 <= Int64.MaxInt64 ->
  Forall (Z.le 0) (zip_with Int64.add l1 l2)
  /\ foldr Z.add 0 (zip_with Int64.add l1 l2)
     = foldr Z.add 0 l1 + foldr Z.add 0 l2.
Proof.
  intros Hlen H1. revert l2 Hlen.
  induction H1 as [|x l1 Hx H1 IH]; intros [|y l2] Hlen H2 Hs;
    simpl in *; try discriminate.
  - split; [constructor|reflexivity].
  - inversion H2 as [|? ? Hy H2']; subst.
    assert (0 <= foldr Z.add 0 l1) by (clear -H1; induction H1; simpl; lia).
    assert (0 <= foldr Z.add 0 l2) by (clear -H2'; induction H2'; simpl; lia).
    destruct (IH l2 ltac:(lia) H2' ltac:(lia)) as [IHf IHs].
    assert (Int64.add x y = x + y) as ->.
    { apply Int64Facts.wrap_small.
      unfold Int64.in_range, Int64.MinInt64, Int64.MaxInt64 in *. lia. }
    split; [constructor; [lia|exact IHf]|]. rewrite IHs. lia.
Qed.

(** What every reachable value satisfies, whatever went into it. *)
Lemma collected_shape (Pow : float -> float -> float) (bs : list float)
  (xs : list float) (a : AggregationDistributionValue) :
  Distribution.collected Pow bs xs a ->
  Distribution.wellFormed a /\ bounds a = bs
  /\ count a = Int64.sum (countPerBucket a)
  /\ FloatOrder.ordered (min a) /\ FloatOrder.ordered (max a).
Proof.
  induction 1 as [|xs a v f a' Ha IH Hv Hadd
                  |xs ys a other a' Ha IHa Ho IHo Hadd].
  - unfold Distribution.wellFormed. simpl. rewrite length_replicate.
    rewrite Int64Facts.sum_replicate_0.
    repeat split; apply FloatOrderFacts.ordered_is_nan; reflexivity.
  - destruct IH as (Hwf & Hbs & Hc & Hmin & Hmax).
    destruct (addSample_numeric a v f Hwf Hv) as (c & Hl & Heq).
    rewrite Heq in Hadd. inversion Hadd; subst a'; clear Hadd.
    unfold Distribution.wellFormed in *. cbv zeta. proj_simpl.
    rewrite length_insert, (Int64Facts.sum_increment _ _ _ Hl), <- Hc.
    repeat split; auto.
    + destruct (f <? min a)%float eqn:E; [|exact Hmin].
      apply FloatOrderFacts.ltb_lt in E. eapply FloatOrderFacts.lt_ordered_l; eauto.
    + destruct (max a <? f)%float eqn:E; [|exact Hmax].
      apply FloatOrderFacts.ltb_lt in E. eapply FloatOrderFacts.lt_ordered_r; eauto.
  - destruct IHa as (Hwa & Hba & Hca & Hmina & Hmaxa).
    destruct IHo as (Hwo & Hbo & Hco & Hmino & Hmaxo).
    assert (length (countPerBucket a) = length (countPerBucket other)) as Hlen
      by (unfold Distribution.wellFormed in *; congruence).
    rewrite (addToIt_distribution Pow a other Hlen) in Hadd.
    inversion Hadd; subst a'; clear Hadd.
    destruct (count other =? 0); [repeat split; assumption|].
    unfold Distribution.wellFormed in *. cbv zeta. proj_simpl.
    rewrite length_zip_with, (Int64Facts.sum_zip_with_add _ _ Hlen), <- Hca, <- Hco.
    repeat split; auto; try lia.
    + destruct (min other <? min a)%float; assumption.
    + destruct (max a <? max other)%float; assumption.
Qed.

(** What it satisfies while the samples that went into it can be counted
    in an [int64]. *)
Lemma collected_exact (Pow : float -> float -> float) (bs : list float)
  (xs : list float) (a : AggregationDistributionValue) :
  Distribution.collected Pow bs xs a ->
  Z.of_nat (length xs) <= Int64.MaxInt64 ->
  Forall (Z.le 0) (countPerBucket a)
  /\ foldr Z.add 0 (countPerBucket a) = Z.of_nat (length xs)
  /\ count a = Z.of_nat (length xs)
  /\ forall x, x ∈ xs -> FloatOrder.ordered x ->
               FloatOrder.le (min a) x /\ FloatOrder.le x (max a).
Proof.
  induction 1 as [|xs a v f a' Ha IH Hv Hadd
                  |xs ys a other a' Ha IHa Ho IHo Hadd]; intros Hn.
  - simpl. split; [apply Forall_replicate; lia|].
    split; [generalize (length bs + 1)%nat; intros n; induction n; simpl; lia|].
    split; [reflexivity|]. intros x Hx. inversion Hx.
  - simpl length in Hn.
    destruct (IH ltac:(lia)) as (Hnn & Hs & Hc & Hx).
    destruct (collected_shape _ _ _ _ Ha) as (Hwf & _ & _ & Hmin & Hmax).
    destruct (addSample_numeric a v f Hwf Hv) as (c & Hl & Heq).
    rewrite Heq in Hadd. inversion Hadd; subst a'; clear Hadd. cbv zeta. proj_simpl.
    assert (foldr Z.add 0 (countPerBucket a) < Int64.MaxInt64) as Hlt by lia.
    destruct (increment_exact _ _ _ Hnn Hl Hlt) as [Hnn' Hs'].
    split; [exact Hnn'|].
    split.
    { rewrite Hs', Hs. cbn [length]. lia. }
    split.
    { rewrite Hc. cbn [length]. unfold Int64.add.
      replace (Z.of_nat (S (length xs))) with (Z.of_nat (length xs) + 1) by lia.
      apply Int64Facts.wrap_small.
      unfold Int64.in_range, Int64.MinInt64, Int64.MaxInt64 in *. lia. }
    intros x Hin Hox. apply elem_of_cons in Hin. split.
    + destruct (f <? min a)%float eqn:E.
      * apply FloatOrderFacts.ltb_lt in E. destruct Hin as [->|Hin].
        -- apply FloatOrderFacts.le_refl, Hox.
        -- apply FloatOrderFacts.lt_le. eapply FloatOrderFacts.lt_le_trans; [exact E|].
           apply (Hx x Hin Hox).
      * apply FloatOrderFacts.ltb_nlt in E. destruct Hin as [->|Hin].
        -- apply FloatOrderFacts.not_lt_le; assumption.
        -- apply (Hx x Hin Hox).
    + destruct (max a <? f)%float eqn:E.
      * apply FloatOrderFacts.ltb_lt in E. destruct Hin as [->|Hin].
        -- apply FloatOrderFacts.le_refl, Hox.
        -- apply FloatOrderFacts.lt_le. eapply FloatOrderFacts.le_lt_trans; [|exact E].
           apply (Hx x Hin Hox).
      * apply FloatOrderFacts.ltb_nlt in E. destruct Hin as [->|Hin].
        -- apply FloatOrderFacts.not_lt_le; assumption.
        -- apply (Hx x Hin Hox).
  - rewrite length_app in Hn.
    destruct (IHa ltac:(lia)) as (Hnna & Hsa & Hca & Hxa).
    destruct (IHo ltac:(lia)) as (Hnno & Hso & Hco & Hxo).
    destruct (collected_shape _ _ _ _ Ha) as (Hwa & Hba & _ & Hmina & Hmaxa).
    destruct (collected_shape _ _ _ _ Ho) as (Hwo & Hbo & _ & Hmino & Hmaxo).
    assert (length (countPerBucket a) = length (countPerBucket other)) as Hlen
      by (unfold Distribution.wellFormed in *; congruence).
    rewrite (addToIt_distribution Pow a other Hlen) in Hadd.
    inversion Hadd; subst a'; clear Hadd.
    destruct (Z.eqb_spec (count other) 0) as [E0|E0].
    + assert (ys = []) as -> by (destruct ys; [reflexivity|simpl in *; lia]).
      simpl. repeat split; auto; apply Hxa; auto.
    + proj_simpl.
      assert (foldr Z.add 0 (countPerBucket a)
              + foldr Z.add 0 (countPerBucket other) <= Int64.MaxInt64) as Hle
        by lia.
      destruct (zip_add_exact _ _ Hlen Hnna Hnno Hle) as [Hnn' Hs'].
      split; [exact Hnn'|]. split; [rewrite Hs', length_app; lia|].
      split.
      { rewrite Hca, Hco, length_app. unfold Int64.add.
        replace (Z.of_nat (length ys + length xs))
          with (Z.of_nat (length xs) + Z.of_nat (length ys)) by lia.
        apply Int64Facts.wrap_small.
        unfold Int64.in_range, Int64.MinInt64, Int64.MaxInt64 in *. lia. }
      intros x Hin Hox. apply elem_of_app in Hin. split.
      * destruct (min other <? min a)%float eqn:E.
        -- apply FloatOrderFacts.ltb_lt in E. destruct Hin as [Hin|Hin].
           ++ apply (Hxo x Hin Hox).
           ++ apply FloatOrderFacts.lt_le. eapply FloatOrderFacts.lt_le_trans; [exact E|].
              apply (Hxa x Hin Hox).
        -- apply FloatOrderFacts.ltb_nlt in E. destruct Hin as [Hin|Hin].
           ++ eapply FloatOrderFacts.le_trans; [|apply (Hxo x Hin Hox)].
              apply FloatOrderFacts.not_lt_le; assumption.
           ++ apply (Hxa x Hin Hox).
      * destruct (max a <? max other)%float eqn:E.
        -- apply FloatOrderFacts.ltb_lt in E. destruct Hin as [Hin|Hin].
           ++ apply (Hxo x Hin Hox).
           ++ apply FloatOrderFacts.lt_le. eapply FloatOrderFacts.le_lt_trans; [|exact E].
              apply (Hxa x Hin Hox).
        -- apply FloatOrderFacts.ltb_nlt in E. destruct Hin as [Hin|Hin].
           ++ eapply FloatOrderFacts.le_trans; [apply (Hxo x Hin Hox)|].
              apply FloatOrderFacts.not_lt_le; assumption.
           ++ apply (Hxa x Hin Hox).
Qed.

(** C5, as the code has it: every value reached from the zeroed state by
    numeric [addSample] calls and [addToIt] calls has one bucket more than
    bounds and satisfies count = Σ countPerBucket in [int64] arithmetic;
    while the samples that went into it can be counted in an [int64], count
    is their number and the sum of the bucket counts as integers, and every
    sample [x] that is not NaN satisfies [min <= x <= max], so that
    [min <= max] once there is one. *)
Theorem collected_invariant (Pow : float -> float -> float) (bs xs : list float)
  (a : AggregationDistributionValue) :
  Distribution.collected Pow bs xs a ->
  count a = Int64.sum (countPerBucket a)
  /\ length (countPerBucket a) = (length bs + 1)%nat
  /\ (Z.of_nat (length xs) <= Int64.MaxInt64 ->
      count a = Z.of_nat (length xs)
      /\ count a = foldr Z.add 0 (countPerBucket a)
      /\ (forall x, x ∈ xs -> is_nan x = false ->
                    (min a <=? x)%float = true /\ (x <=? max a)%float = true)
      /\ ((exists x, x ∈ xs /\ is_nan x = false) ->
          (min a <=? max a)%float = true)).
Proof.
  intros H.
  destruct (collected_shape _ _ _ _ H) as (Hwf & Hbs & Hc & _ & _).
  split; [exact Hc|]. split; [unfold Distribution.wellFormed in Hwf; congruence|].
  intros Hn. destruct (collected_exact _ _ _ _ H Hn) as (_ & Hs & Hcn & Hx).
  assert (forall x, x ∈ xs -> is_nan x = false ->
                    (min a <=? x)%float = true /\ (x <=? max a)%float = true)
    as Hx'.
  { intros x Hin Hnan. rewrite !FloatOrderFacts.leb_le.
    apply Hx; [exact Hin|]. apply FloatOrderFacts.ordered_is_nan, Hnan. }
  split; [exact Hcn|]. split; [congruence|]. split; [exact Hx'|].
  intros (x & Hin & Hnan). destruct (Hx' x Hin Hnan) as [Hlo Hhi].
  rewrite FloatOrderFacts.leb_le in *. eapply FloatOrderFacts.le_trans; eauto.
Qed.

(** Scenario B's value is reached by the samples 1 and 5. *)
Lemma scenarioB_collected (Pow : float -> float -> float) :
  Distribution.collected Pow [2%float] [5%float; 1%float] scenarioB.
Proof.
  apply (Distribution.collected_addSample Pow _ [1%float]
           (mkDistribution 1 1 1 1 0 [1; 0] [2%float]) (VFloat64 5) 5%float);
    [|reflexivity|reflexivity].
  apply (Distribution.collected_addSample Pow _ []
           (Distribution.newAggregationDistributionValue [2%float])
           (VFloat64 1) 1%float);
    [|reflexivity|reflexivity].
  apply Distribution.collected_new.
Defined.

Lemma collected_invariant_witness :
  count scenarioB = Int64.sum (countPerBucket scenarioB)
  /\ length (countPerBucket scenarioB) = (length [2%float] + 1)%nat
  /\ (Z.of_nat (length [5%float; 1%float]) <= Int64.MaxInt64 ->
      count scenarioB = Z.of_nat (length [5%float; 1%float])
      /\ count scenarioB = foldr Z.add 0 (countPerBucket scenarioB)
      /\ (forall x, x ∈ [5%float; 1%float] -> is_nan x = false ->
                    (min scenarioB <=? x)%float = true
                    /\ (x <=? max scenarioB)%float = true)
      /\ ((exists x, x ∈ [5%float; 1%float] /\ is_nan x = false) ->
          (min scenarioB <=? max scenarioB)%float = true)).
Proof.
  apply (collected_invariant square [2%float] [5%float; 1%float] scenarioB).
  apply scenarioB_collected.
Defined.

(** C5, as stated, fails. Two samples of opposite sign and the largest
    magnitude overflow the running mean to +∞, above max. And the mean of
    a merge is a rounded quotient: a value holding the sample 0.1 once,
    merged with one holding it twice, has count 3 and a mean one unit in
    the last place above its max, whatever [math.Pow] returns. *)
Lemma mean_outside_min_max :
  (exists a,
      (forall Pow,
          Distribution.collected Pow []
            [Float64.MaxFloat64; (- Float64.MaxFloat64)%float] a)
      /\ 1 <= count a
      /\ (mean a <=? max a)%float = false)
  /\ (forall Pow,
        exists a,
          Distribution.collected Pow [] [tenth; tenth; tenth] a
          /\ 1 <= count a
          /\ (mean a <=? max a)%float = false).
Proof.
  split.
  - exists (mkDistribution 2 (- Float64.MaxFloat64) Float64.MaxFloat64
              infinity neg_infinity [2] []).
    split; [|split; [vm_compute; discriminate|reflexivity]].
    intros Pow.
    apply (Distribution.collected_addSample Pow _ [(- Float64.MaxFloat64)%float]
             (mkDistribution 1 (- Float64.MaxFloat64)
                Float64.SmallestNonzeroFloat64 (- Float64.MaxFloat64) 0 [1] [])
             (VFloat64 Float64.MaxFloat64) Float64.MaxFloat64);
      [|reflexivity|reflexivity].
    apply (Distribution.collected_addSample Pow _ []
             (Distribution.newAggregationDistributionValue [])
             (VFloat64 (- Float64.MaxFloat64)) (- Float64.MaxFloat64)%float);
      [|reflexivity|reflexivity].
    apply Distribution.collected_new.
  - intros Pow.
    assert (Distribution.collected Pow [] [tenth]
              (mkDistribution 1 tenth tenth tenth 0 [1] [])) as H1.
    { apply (Distribution.collected_addSample Pow _ []
               (Distribution.newAggregationDistributionValue [])
               (VFloat64 tenth) tenth);
        [|reflexivity|reflexivity].
      apply Distribution.collected_new. }
    assert (Distribution.collected Pow [] [tenth; tenth]
              (mkDistribution 2 tenth tenth tenth 0 [2] [])) as H2.
    { apply (Distribution.collected_addSample Pow _ [tenth]
               (mkDistribution 1 tenth tenth tenth 0 [1] [])
               (VFloat64 tenth) tenth);
        [exact H1|reflexivity|reflexivity]. }
    eexists. split.
    + apply (Distribution.collected_addToIt Pow [] [tenth] [tenth; tenth]
               _ _ _ H1 H2).
      reflexivity.
    + split; [vm_compute; discriminate|reflexivity].
Qed.

(** A NaN sample is counted and leaves min and max at their initial
    values, min above max. *)
Example nan_sample :
  Distribution.addSample (Distribution.newAggregationDistributionValue [])
    (VFloat64 nan)
  = Done {| count := 1; min := Float64.MaxFloat64;
            max := Float64.SmallestNonzeroFloat64; mean := nan;
            sumOfSquaredDev := 0; countPerBucket := [1]; bounds := [] |}
  /\ (Float64.MaxFloat64 <=? Float64.SmallestNonzeroFloat64)%float = false.
Proof. split; reflexivity. Qed.

(** * Further properties *)

(** ** The count aggregator as a counter *)

Lemma countSamples_wrap (a : AggregationCountValue) (xs : list sample) :
  countSamples a xs = Int64.wrap (a + Z.of_nat (length xs)) \/ xs = [] /\ countSamples a xs = a.
Proof.
  revert a. induction xs as [|x xs IH]; intros a.
  - right. split; reflexivity.
  - left. unfold countSamples in *. cbn [foldl length].
    destruct (IH (Count.addSample a x)) as [E|[-> E]].
    + rewrite E. unfold Count.addSample, Int64.add.
      rewrite Int64Facts.wrap_add_l. f_equal. lia.
    + simpl. unfold Count.addSample, Int64.add. f_equal.
Qed.

(** X1: a count aggregator counts the calls of [addSample], whatever the
    samples are: from a cleared counter the samples [xs] leave the number
    of [xs] in [int64] arithmetic (the number itself up to
    [math.MaxInt64]), and merging the counters of two runs with [addToIt]
    gives the counter of the two runs in a row. *)
Theorem count_counts_samples (a b : AggregationCountValue) (xs ys : list sample) :
  countSamples (Count.clear a) xs = Int64.wrap (Z.of_nat (length xs))
  /\ (Z.of_nat (length xs) <= Int64.MaxInt64 ->
      countSamples (Count.clear a) xs = Z.of_nat (length xs))
  /\ Count.addToIt (countSamples (Count.clear a) xs)
       (CountValue (Some (countSamples (Count.clear b) ys)))
     = Done (countSamples (Count.clear a) (xs ++ ys)).
Proof.
  assert (forall zs : list sample,
             countSamples 0 zs = Int64.wrap (Z.of_nat (length zs))) as H.
  { intros zs. destruct (countSamples_wrap 0 zs) as [E|[-> E]].
    - rewrite E. f_equal.
    - reflexivity. }
  unfold Count.clear. split; [apply H|]. split.
  - intros Hn. rewrite H. apply Int64Facts.wrap_small.
    unfold Int64.in_range, Int64.MinInt64, Int64.MaxInt64 in *. lia.
  - unfold Count.addToIt. rewrite !H, length_app. f_equal.
    unfold Int64.add. rewrite Int64Facts.wrap_add_l, Int64Facts.wrap_add_r.
    f_equal. lia.
Qed.

(** X2: merging count aggregators is commutative and associative, in
    [int64] arithmetic, and merging a cleared counter into a counter leaves
    it as it was. *)
Theorem count_addToIt_monoid (a b c : AggregationCountValue) :
  Count.addToIt a (CountValue (Some b)) = Count.addToIt b (CountValue (Some a))
  /\ (let! ab := Count.addToIt a (CountValue (Some b)) in
      Count.addToIt ab (CountValue (Some c)))
     = (let! bc := Count.addToIt b (CountValue (Some c)) in
        Count.addToIt a (CountValue (Some bc)))
  /\ (Int64.in_range a ->
      Count.addToIt a (CountValue (Some (Count.clear b))) = Done a).
Proof.
  unfold Count.addToIt, Count.clear. cbn [bind]. split; [|split].
  - f_equal. apply Int64Facts.add_comm.
  - f_equal. symmetry. apply Int64Facts.add_assoc.
  - intros Ha. f_equal. apply Int64Facts.add_0_r, Ha.
Qed.

(** X3: [equal] on a count aggregator is true exactly when the argument is
    a count aggregator holding the same integer; it, and [addToIt], panic
    exactly when the argument is a nil [*AggregationCountValue]. *)
Theorem count_equal_decides (a : AggregationCountValue) (other : AggregationValue) :
  (Count.equal a other = Done true <-> other = CountValue (Some a))
  /\ (Count.equal a other = Panic <-> other = CountValue None)
  /\ (Count.addToIt a other = Panic <-> other = CountValue None).
Proof.
  unfold Count.equal, Count.addToIt.
  destruct other as [|[a2|]|p]; repeat split; try discriminate; try reflexivity.
  - intros H. inversion H as [E]. apply Z.eqb_eq in E. congruence.
  - intros H. inversion H; subst. rewrite Z.eqb_refl. reflexivity.
Qed.

(** ** Shape and panics of the distribution aggregator *)

Lemma copyFrom_general (pre src dst : list Z) :
  Distribution.copyFrom (length pre) src (pre ++ dst)
  = if (length src <=? length dst)%nat
    then Done (pre ++ src ++ drop (length src) dst)
    else Panic.
Proof.
  revert pre dst. induction src as [|c src IH]; intros pre dst.
  - reflexivity.
  - destruct dst as [|d dst]; cbn [Distribution.copyFrom].
    + rewrite lookup_ge_None_2 by (rewrite length_app; simpl; lia).
      reflexivity.
    + rewrite list_lookup_middle by reflexivity.
      replace (<[length pre := c]> (pre ++ d :: dst)) with ((pre ++ [c]) ++ dst)
        by (rewrite insert_app_r_alt by lia; rewrite Nat.sub_diag; simpl;
            rewrite <- app_assoc; reflexivity).
      replace (S (length pre)) with (length (pre ++ [c]))
        by (rewrite length_app; simpl; lia).
      rewrite IH. cbn [length drop]. change (S (length src) <=? S (length dst))%nat
        with (length src <=? length dst)%nat.
      destruct (length src <=? length dst)%nat; [|reflexivity].
      rewrite <- app_assoc. reflexivity.
Qed.

Lemma addFrom_general (pre src dst : list Z) :
  Distribution.addFrom (length pre) src (pre ++ dst)
  = if (length src <=? length dst)%nat
    then Done (pre ++ zip_with Int64.add (take (length src) dst) src
                  ++ drop (length src) dst)
    else Panic.
Proof.
  revert pre dst. induction src as [|c src IH]; intros pre dst.
  - cbn. rewrite take_0. reflexivity.
  - destruct dst as [|d dst]; cbn [Distribution.addFrom].
    + rewrite lookup_ge_None_2 by (rewrite length_app; simpl; lia).
      reflexivity.
    + rewrite list_lookup_middle by reflexivity.
      replace (<[length pre := Int64.add d c]> (pre ++ d :: dst))
        with ((pre ++ [Int64.add d c]) ++ dst)
        by (rewrite insert_app_r_alt by lia; rewrite Nat.sub_diag; simpl;
            rewrite <- app_assoc; reflexivity).
      replace (S (length pre)) with (length (pre ++ [Int64.add d c]))
        by (rewrite length_app; simpl; lia).
      rewrite IH. cbn [length drop take zip_with].
      change (S (length src) <=? S (length dst))%nat
        with (length src <=? length dst)%nat.
      destruct (length src <=? length dst)%nat; [|reflexivity].
      rewrite <- app_assoc. reflexivity.
Qed.

(** [addSample] with a numeric sample, on any value: it panics when the
    bucket of the sample is not there. *)
Lemma addSample_numeric_any (a : AggregationDistributionValue) (v : sample) (f : float) :
  Distribution.numeric v = Some f ->
  Distribution.addSample a v
  = match countPerBucket a !! Distribution.bucketOf f (bounds a) 0 with
    | Some c =>
        Done
          (let count1 := Int64.add (count a) 1 in
           let mean1 :=
             (mean a + (f - mean a) / Float64.of_int64 count1)%float in
           {| count := count1;
              min := if (f <? min a)%float then f else min a;
              max := if (max a <? f)%float then f else max a;
              mean := if count1 =? 1 then f else mean1;
              sumOfSquaredDev :=
                if count1 =? 1 then sumOfSquaredDev a
                else (sumOfSquaredDev a + (f - mean a) * (f - mean1))%float;
              countPerBucket :=
                <[Distribution.bucketOf f (bounds a) 0 := Int64.add c 1]>
                  (countPerBucket a);
              bounds := bounds a |})
    | None => Panic
    end.
Proof.
  intros Hv. unfold Distribution.addSample. rewrite Hv.
  unfold Distribution.incrementBucketCount. cbn [bounds countPerBucket].
  assert ((if (length (bounds a) =? 0)%nat then 0%nat
           else Distribution.bucketOf f (bounds a) 0)
          = Distribution.bucketOf f (bounds a) 0) as Hi
    by (destruct (bounds a); reflexivity).
  assert (forall k : list Z -> outcome AggregationDistributionValue,
             (if (length (bounds a) =? 0)%nat
              then let! s := Distribution.increment (countPerBucket a) 0 in k s
              else let! s := Distribution.increment (countPerBucket a)
                               (Distribution.bucketOf f (bounds a) 0) in k s)
             = let! s := Distribution.increment (countPerBucket a)
                           (Distribution.bucketOf f (bounds a) 0) in k s) as Hk.
  { intros k. destruct (bounds a); reflexivity. }
  rewrite Hk. unfold Distribution.increment.
  destruct (countPerBucket a !! Distribution.bucketOf f (bounds a) 0) as [c|];
    [|reflexivity].
  cbn. destruct (Int64.add (count a) 1 =? 1); reflexivity.
Qed.

Lemma distribution_multiplyByFraction_shape_aux
  (a : AggregationDistributionValue) (fraction : float) :
  Distribution.wellFormed a ->
  exists r, Distribution.multiplyByFraction a fraction
            = Done (a, DistributionValue (Some r))
            /\ Distribution.wellFormed r /\ bounds r = bounds a.
Proof.
  intros Hwf. unfold Distribution.multiplyByFraction. simpl.
  rewrite Loops.copyFrom_same_length
    by (rewrite length_replicate; symmetry; exact Hwf).
  eexists. split; [reflexivity|]. split; [exact Hwf|reflexivity].
Qed.

(** X4: the methods of a distribution aggregator keep its shape: on a
    value with one bucket more than bounds, [addSample] (with any sample),
    [addToIt] (with a value of that shape over the same bounds), [clear]
    and [multiplyByFraction] return, never panic, and the value they leave
    or return has the same bounds and one bucket more than bounds. *)
Theorem distribution_keeps_shape (Pow : float -> float -> float)
  (a b : AggregationDistributionValue) (v : sample) (fraction : float) :
  Distribution.wellFormed a ->
  Distribution.wellFormed b ->
  bounds b = bounds a ->
  (exists a', Distribution.addSample a v = Done a'
              /\ Distribution.wellFormed a' /\ bounds a' = bounds a)
  /\ (exists a', Distribution.addToIt Pow a (DistributionValue (Some b)) = Done a'
                 /\ Distribution.wellFormed a' /\ bounds a' = bounds a)
  /\ (Distribution.wellFormed (Distribution.clear a)
      /\ bounds (Distribution.clear a) = bounds a)
  /\ (exists r, Distribution.multiplyByFraction a fraction
                = Done (a, DistributionValue (Some r))
                /\ Distribution.wellFormed r /\ bounds r = bounds a).
Proof.
  intros Hwa Hwb Hbs. split; [|split; [|split]].
  - destruct (Distribution.numeric v) as [f|] eqn:Hv.
    + destruct (addSample_numeric a v f Hwa Hv) as (c & _ & Heq).
      eexists. split; [exact Heq|]. unfold Distribution.wellFormed in *.
      cbv zeta. proj_simpl. rewrite length_insert. auto.
    + exists a. unfold Distribution.addSample. rewrite Hv. auto.
  - assert (length (countPerBucket a) = length (countPerBucket b)) as Hlen
      by (unfold Distribution.wellFormed in *; congruence).
    rewrite (addToIt_distribution Pow a b Hlen).
    eexists. split; [reflexivity|].
    destruct (count b =? 0); [auto|].
    unfold Distribution.wellFormed in *. proj_simpl.
    rewrite length_zip_with. split; [lia|reflexivity].
  - unfold Distribution.wellFormed in *. cbn.
    rewrite Loops.zeroAll_replicate, length_replicate. auto.
  - destruct (distribution_multiplyByFraction_shape_aux a fraction Hwa) as [r Hr].
    exists r. exact Hr.
Qed.

Lemma distribution_keeps_shape_witness :
  (exists a', Distribution.addSample scenarioB (VInt64 7) = Done a'
              /\ Distribution.wellFormed a' /\ bounds a' = bounds scenarioB)
  /\ (exists a', Distribution.addToIt square scenarioB
                   (DistributionValue
                      (Some (Distribution.newAggregationDistributionValue [2%float])))
                 = Done a'
                 /\ Distribution.wellFormed a' /\ bounds a' = bounds scenarioB)
  /\ (Distribution.wellFormed (Distribution.clear scenarioB)
      /\ bounds (Distribution.clear scenarioB) = bounds scenarioB)
  /\ (exists r, Distribution.multiplyByFraction scenarioB 0.5
                = Done (scenarioB, DistributionValue (Some r))
                /\ Distribution.wellFormed r /\ bounds r = bounds scenarioB).
Proof.
  apply (distribution_keeps_shape square scenarioB
           (Distribution.newAggregationDistributionValue [2%float])
           (VInt64 7) 0.5); reflexivity.
Defined.

(** X5: [addSample] on a distribution aggregator panics exactly when the
    sample is numeric and the bucket it belongs to, the first one whose
    bound is above it or the one after the last bound, is not in
    countPerBucket; a sample that is not numeric never makes it panic. *)
Theorem distribution_addSample_panics (a : AggregationDistributionValue) (v : sample) :
  Distribution.addSample a v = Panic <->
  exists f, Distribution.numeric v = Some f
            /\ (length (countPerBucket a)
                <= Distribution.bucketOf f (bounds a) 0)%nat.
Proof.
  destruct (Distribution.numeric v) as [f|] eqn:Hv.
  - rewrite (addSample_numeric_any a v f Hv).
    destruct (countPerBucket a !! Distribution.bucketOf f (bounds a) 0)
      as [c|] eqn:Hc.
    + split; [discriminate|]. intros (f' & Hf' & Hlen).
      inversion Hf'; subst f'. apply lookup_lt_Some in Hc. lia.
    + split; [|reflexivity]. intros _. exists f. split; [reflexivity|].
      apply lookup_ge_None in Hc. exact Hc.
  - unfold Distribution.addSample. rewrite Hv.
    split; [discriminate|]. intros (f & Hf & _). discriminate.
Qed.

(** X6: [addToIt] on a distribution aggregator panics exactly when the
    argument is a nil [*AggregationDistributionValue], or a distribution
    with a count other than 0 and more buckets than the receiver. With
    at most as many buckets the call returns, and the receiver's buckets
    beyond the argument's are left as they were. *)
Theorem distribution_addToIt_panics (Pow : float -> float -> float)
  (a : AggregationDistributionValue) (av : AggregationValue) :
  (Distribution.addToIt Pow a av = Panic <->
   av = DistributionValue None
   \/ exists other, av = DistributionValue (Some other)
                    /\ count other <> 0
                    /\ (length (countPerBucket a) < length (countPerBucket other))%nat)
  /\ (forall other a',
        av = DistributionValue (Some other) ->
        count other <> 0 ->
        Distribution.addToIt Pow a av = Done a' ->
        countPerBucket a'
        = zip_with Int64.add
            (take (length (countPerBucket other)) (countPerBucket a))
            (countPerBucket other)
          ++ drop (length (countPerBucket other)) (countPerBucket a)).
Proof.
  assert (forall other,
             Distribution.addFrom 0 (countPerBucket other) (countPerBucket a)
             = if (length (countPerBucket other) <=? length (countPerBucket a))%nat
               then Done (zip_with Int64.add
                            (take (length (countPerBucket other)) (countPerBucket a))
                            (countPerBucket other)
                          ++ drop (length (countPerBucket other)) (countPerBucket a))
               else Panic) as Hadd
    by (intros other; apply (addFrom_general [])).
  split.
  - destruct av as [|q|[other|]]; cbn [Distribution.addToIt].
    + split; [discriminate|]. intros [H|(o & H & _)]; discriminate.
    + split; [discriminate|]. intros [H|(o & H & _)]; discriminate.
    + destruct (Z.eqb_spec (count other) 0) as [E|E].
      * split; [discriminate|]. intros [H|(o & H & Hc & _)]; [discriminate|].
        inversion H; subst o. contradiction.
      * rewrite Hadd.
        destruct (Nat.leb_spec (length (countPerBucket other))
                    (length (countPerBucket a))) as [Hle|Hlt]; cbn [bind].
        -- split; [discriminate|]. intros [H|(o & H & _ & Hl)]; [discriminate|].
           inversion H; subst o. lia.
        -- split; [|reflexivity]. intros _. right. exists other. auto.
    + split; [|reflexivity]. intros _. left. reflexivity.
  - intros other a' -> Hc. cbn [Distribution.addToIt].
    destruct (Z.eqb_spec (count other) 0) as [E|E]; [contradiction|].
    rewrite Hadd.
    destruct (length (countPerBucket other) <=? length (countPerBucket a))%nat;
      cbn [bind]; [|discriminate].
    intros H. inversion H. reflexivity.
Qed.

(** X7: [multiplyByFraction] on a distribution aggregator panics exactly
    when the receiver has more buckets than bounds plus one; otherwise the
    copy has bounds plus one buckets, the receiver's followed by zeros. *)
Theorem distribution_multiplyByFraction_panics
  (a : AggregationDistributionValue) (fraction : float) :
  (Distribution.multiplyByFraction a fraction = Panic <->
   (length (bounds a) + 1 < length (countPerBucket a))%nat)
  /\ (forall a1 r,
        Distribution.multiplyByFraction a fraction
        = Done (a1, DistributionValue (Some r)) ->
        a1 = a
        /\ countPerBucket r
           = countPerBucket a
             ++ replicate (length (bounds a) + 1 - length (countPerBucket a)) 0
        /\ length (countPerBucket r) = (length (bounds a) + 1)%nat).
Proof.
  unfold Distribution.multiplyByFraction. cbn [countPerBucket bounds
    Distribution.newAggregationDistributionValue].
  pose proof (copyFrom_general [] (countPerBucket a)
                (replicate (length (bounds a) + 1) 0)) as Hcopy.
  cbn [length app] in Hcopy. rewrite Hcopy. clear Hcopy.
  rewrite length_replicate, drop_replicate.
  destruct (Nat.leb_spec (length (countPerBucket a)) (length (bounds a) + 1))
    as [Hle|Hlt]; cbn [bind app].
  - split; [split; [discriminate|lia]|].
    intros a1 r H. inversion H; subst. proj_simpl.
    split; [reflexivity|]. split; [reflexivity|].
    rewrite length_app, length_replicate. lia.
  - split; [split; [intros _; exact Hlt|reflexivity]|].
    intros a1 r H. discriminate.
Qed.

(** X8: [clear] restores the value the constructor builds: on a value
    with one bucket more than bounds it leaves
    [newAggregationDistributionValue] of the same bounds; clearing twice is
    clearing once, on any value. *)
Theorem distribution_clear_is_new (a : AggregationDistributionValue) :
  (Distribution.wellFormed a ->
   Distribution.clear a = Distribution.newAggregationDistributionValue (bounds a))
  /\ Distribution.clear (Distribution.clear a) = Distribution.clear a.
Proof.
  unfold Distribution.clear, Distribution.newAggregationDistributionValue,
    Distribution.wellFormed. proj_simpl.
  rewrite !Loops.zeroAll_replicate, length_replicate. split; [|reflexivity].
  intros ->. reflexivity.
Qed.

Lemma foldl_snoc (l acc : list Z) :
  foldl (fun ret c => ret ++ [c]) acc l = acc ++ l.
Proof.
  revert acc. induction l as [|c l IH]; intros acc; simpl.
  - rewrite app_nil_r. reflexivity.
  - rewrite IH, <- app_assoc. reflexivity.
Qed.

(** X9: [CountPerBucket] returns the bucket counts, in order; on a value
    reached from the zeroed state their [int64] sum is [Count]. *)
Theorem distribution_CountPerBucket (Pow : float -> float -> float)
  (bs xs : list float) (a : AggregationDistributionValue) :
  Distribution.CountPerBucket a = countPerBucket a
  /\ (Distribution.collected Pow bs xs a ->
      Int64.sum (Distribution.CountPerBucket a) = Distribution.Count a).
Proof.
  assert (Distribution.CountPerBucket a = countPerBucket a) as H
    by apply (foldl_snoc (countPerBucket a) []).
  split; [exact H|]. intros Hc. rewrite H.
  destruct (collected_shape _ _ _ _ Hc) as (_ & _ & E & _).
  unfold Distribution.Count. congruence.
Qed.

(** ** The buckets as intervals *)

(** X10: a sample at least as large as another never lands in a lower
    bucket, whatever the bounds are. *)
Theorem bucketOf_monotone (bs : list float) (x y : float) :
  (x <=? y)%float = true ->
  (Distribution.bucketOf x bs 0 <= Distribution.bucketOf y bs 0)%nat.
Proof.
  intros Hxy. apply FloatOrderFacts.leb_le in Hxy.
  induction bs as [|b bs IH]; simpl; [lia|].
  destruct (x <? b)%float eqn:Hx; [lia|].
  destruct (y <? b)%float eqn:Hy.
  - exfalso. apply FloatOrderFacts.ltb_nlt in Hx. apply Hx.
    apply FloatOrderFacts.ltb_lt in Hy.
    eapply FloatOrderFacts.le_lt_trans; eauto.
  - rewrite (bucketOf_shift x), (bucketOf_shift y). lia.
Qed.

Lemma bucketOf_monotone_witness :
  (Distribution.bucketOf 3 [2; 4]%float 0 <= Distribution.bucketOf 4 [2; 4]%float 0)%nat.
Proof. apply (bucketOf_monotone [2; 4]%float 3 4). reflexivity. Defined.

Lemma strictlyIncreasing_lookup (bs : list float) (j k : nat) (bj bk : float) :
  strictlyIncreasing bs = true -> (j < k)%nat ->
  bs !! j = Some bj -> bs !! k = Some bk -> FloatOrder.lt bj bk.
Proof.
  revert j k bj. induction bs as [|b0 bs IH]; intros j k bj Hinc Hjk Hj Hk.
  - discriminate.
  - destruct k as [|k]; [lia|]. simpl in Hk.
    destruct bs as [|b1 bs]; [discriminate|].
    cbn [strictlyIncreasing] in Hinc. apply andb_true_iff in Hinc.
    destruct Hinc as [H01 Hinc]. apply FloatOrderFacts.ltb_lt in H01.
    destruct j as [|j]; simpl in Hj.
    + inversion Hj; subst bj. destruct k as [|k].
      * simpl in Hk. inversion Hk; subst bk. exact H01.
      * eapply FloatOrderFacts.lt_trans; [exact H01|].
        apply (IH 0%nat (S k) b1 Hinc ltac:(lia) eq_refl Hk).
    + apply (IH j k bj Hinc ltac:(lia) Hj Hk).
Qed.

Lemma bucketOf_unique (x : float) (bs : list float) (i : nat) :
  (i <= length bs)%nat ->
  (forall j b, (j < i)%nat -> bs !! j = Some b -> (x <? b)%float = false) ->
  (forall b, bs !! i = Some b -> (x <? b)%float = true) ->
  Distribution.bucketOf x bs 0 = i.
Proof.
  intros Hi Hlo Hhi.
  destruct (bucketOf_first x bs) as [Klo Khi].
  pose proof (bucketOf_bound x bs) as Kb.
  destruct (Nat.lt_trichotomy (Distribution.bucketOf x bs 0) i) as [H|[H|H]];
    [exfalso|exact H|exfalso].
  - destruct (Khi ltac:(lia)) as (b & Hb & Hlt).
    rewrite (Hlo _ b H Hb) in Hlt. discriminate.
  - destruct (lookup_lt_is_Some_2 bs i ltac:(lia)) as [b Hb].
    pose proof (Hhi b Hb) as Hlt. rewrite (Klo i b H Hb) in Hlt. discriminate.
Qed.

(** X11: over strictly increasing bounds, none of them NaN, the buckets
    are the intervals (−∞, b₀), [b₀, b₁), …, [bₙ₋₁, +∞): a sample [x] that
    is not NaN is placed in bucket [i] exactly when [bounds[i-1] <= x]
    (for [i >= 1]) and [x < bounds[i]] (for [i < len(bounds)]). *)
Theorem bucket_is_interval (bs : list float) (x : float) (i : nat) :
  strictlyIncreasing bs = true ->
  (forall j b, bs !! j = Some b -> is_nan b = false) ->
  is_nan x = false ->
  (i <= length bs)%nat ->
  (Distribution.bucketOf x bs 0 = i <->
   (forall b, (1 <= i)%nat -> bs !! (i - 1)%nat = Some b -> (b <=? x)%float = true)
   /\ (forall b, bs !! i = Some b -> (x <? b)%float = true)).
Proof.
  intros Hinc Hnan Hx Hi. apply FloatOrderFacts.ordered_is_nan in Hx.
  destruct (bucketOf_first x bs) as [Klo Khi]. split.
  - intros <-. split.
    + intros b H1 Hb. apply FloatOrderFacts.leb_le.
      apply FloatOrderFacts.not_lt_le;
        [exact Hx|apply FloatOrderFacts.ordered_is_nan; eauto|].
      apply FloatOrderFacts.ltb_nlt.
      apply (Klo (Distribution.bucketOf x bs 0 - 1)%nat b); [lia|exact Hb].
    + intros b Hb. pose proof (lookup_lt_Some _ _ _ Hb) as Hlen.
      destruct (Khi Hlen) as (b' & Hb' & Hlt). congruence.
  - intros [Hlo Hhi]. apply bucketOf_unique; [exact Hi| |exact Hhi].
    intros j b Hj Hb. apply FloatOrderFacts.ltb_nlt.
    assert (i - 1 < length bs)%nat as Hlen by lia.
    destruct (lookup_lt_is_Some_2 bs (i - 1)%nat Hlen) as [b' Hb'].
    assert (1 <= i)%nat as H1 by lia.
    pose proof (Hlo b' H1 Hb') as Hle.
    apply FloatOrderFacts.leb_le in Hle.
    apply FloatOrderFacts.le_not_lt.
    destruct (Nat.eq_dec j (i - 1)%nat) as [->|Hne].
    + congruence.
    + eapply FloatOrderFacts.le_trans; [|exact Hle].
      apply FloatOrderFacts.lt_le.
      assert (j < i - 1)%nat as Hlt by lia.
      apply (strictlyIncreasing_lookup bs j (i - 1)%nat b b' Hinc Hlt Hb Hb').
Qed.

Lemma bucket_is_interval_witness :
  Distribution.bucketOf 3 [2; 4]%float 0 = 1%nat <->
  (forall b, (1 <= 1)%nat -> [2; 4]%float !! (1 - 1)%nat = Some b ->
             (b <=? 3)%float = true)
  /\ (forall b, [2; 4]%float !! 1%nat = Some b -> (3 <? b)%float = true).
Proof.
  apply (bucket_is_interval [2; 4]%float 3 1).
  - reflexivity.
  - intros [|[|j]] b H; simpl in H; inversion H; reflexivity.
  - reflexivity.
  - simpl. lia.
Defined.

(** ** Merging in either order *)

Lemma SFadd_comm (x y : spec_float) : SF64add x y = SF64add y x.
Proof.
  unfold SF64add, SFadd.
  destruct x as [[]|[]| |sx mx ex], y as [[]|[]| |sy my ey]; try reflexivity.
  rewrite (Z.min_comm ey ex), Z.add_comm. reflexivity.
Qed.

Lemma float_add_comm (x y : float) : (x + y)%float = (y + x)%float.
Proof.
  apply Prim2SF_inj. rewrite !FloatAxioms.add_spec. apply SFadd_comm.
Qed.

Lemma SFeqb_rank (x y : spec_float) :
  SFeqb x y = true <->
  exists k, FloatOrder.rank x = Some k /\ FloatOrder.rank y = Some k.
Proof.
  unfold SFeqb; split.
  - destruct x as [s1|s1| |s1 m1 e1], y as [s2|s2| |s2 m2 e2];
      try destruct s1; try destruct s2; simpl; try discriminate;
      FloatOrderFacts.cases_compare; simpl; try discriminate; intros _;
      subst; eexists; split; reflexivity.
  - intros (k & H1 & H2).
    destruct x as [s1|s1| |s1 m1 e1], y as [s2|s2| |s2 m2 e2];
      try destruct s1; try destruct s2; simpl in *; try discriminate;
      try reflexivity;
      rewrite <- H2 in H1; inversion H1; subst;
      rewrite ?Z.compare_refl;
      change (Pos.compare_cont Eq m2 m2) with (Pos.compare m2 m2);
      rewrite ?Pos.compare_refl; try reflexivity;
      match goal with H : - _ = - _ |- _ => apply Z.opp_inj in H; subst end;
      rewrite ?Z.compare_refl; reflexivity.
Qed.

(** Two numbers neither of which is below the other are equal ([==]). *)
Lemma not_lt_eqb (x y : float) :
  FloatOrder.ordered x -> FloatOrder.ordered y ->
  ~ FloatOrder.lt x y -> ~ FloatOrder.lt y x -> (x =? y)%float = true.
Proof.
  intros [[[c1 e1] m1] H1] [[[c2 e2] m2] H2] Hxy Hyx.
  rewrite FloatAxioms.eqb_spec. apply SFeqb_rank.
  assert (~ FloatOrder.rank_lt (c1, e1, m1) (c2, e2, m2)) as Hr1
    by (intros Hr; apply Hxy; eexists _, _; eauto).
  assert (~ FloatOrder.rank_lt (c2, e2, m2) (c1, e1, m1)) as Hr2
    by (intros Hr; apply Hyx; eexists _, _; eauto).
  unfold FloatOrder.rank_lt in *.
  assert (c1 = c2 /\ e1 = e2 /\ m1 = m2) as (-> & -> & ->) by lia.
  exists (c2, e2, m2). split; assumption.
Qed.

Lemma eqb_refl_ordered (x : float) : FloatOrder.ordered x -> (x =? x)%float = true.
Proof.
  intros [k Hk]. rewrite FloatAxioms.eqb_spec. apply SFeqb_rank. eauto.
Qed.

(** X12: merging two distribution aggregators with as many buckets and
    counts other than 0 gives, in either order, the same count, the same
    bucket counts and the same mean; the same min and the same max
    ([==]) when the mins and maxes are not NaN. *)
Theorem distribution_addToIt_comm (Pow : float -> float -> float)
  (a b : AggregationDistributionValue) :
  length (countPerBucket a) = length (countPerBucket b) ->
  count a <> 0 -> count b <> 0 ->
  exists ab ba,
    Distribution.addToIt Pow a (DistributionValue (Some b)) = Done ab
    /\ Distribution.addToIt Pow b (DistributionValue (Some a)) = Done ba
    /\ count ab = count ba
    /\ countPerBucket ab = countPerBucket ba
    /\ mean ab = mean ba
    /\ (is_nan (min a) = false -> is_nan (min b) = false ->
        (min ab =? min ba)%float = true)
    /\ (is_nan (max a) = false -> is_nan (max b) = false ->
        (max ab =? max ba)%float = true).
Proof.
  intros Hlen Ha Hb.
  rewrite (addToIt_distribution Pow a b Hlen).
  rewrite (addToIt_distribution Pow b a (eq_sym Hlen)).
  destruct (Z.eqb_spec (count a) 0) as [|_]; [contradiction|].
  destruct (Z.eqb_spec (count b) 0) as [|_]; [contradiction|].
  eexists _, _. split; [reflexivity|]. split; [reflexivity|]. proj_simpl.
  split; [apply Int64Facts.add_comm|].
  split.
  { apply list_eq. intros i. rewrite !lookup_zip_with.
    destruct (countPerBucket a !! i), (countPerBucket b !! i); simpl;
      try reflexivity.
    f_equal. apply Int64Facts.add_comm. }
  split.
  { rewrite (Int64Facts.add_comm (count b) (count a)). f_equal.
    apply float_add_comm. }
  split.
  - intros Hna Hnb. apply FloatOrderFacts.ordered_is_nan in Hna, Hnb.
    destruct (min b <? min a)%float eqn:E1, (min a <? min b)%float eqn:E2.
    + exfalso. apply FloatOrderFacts.ltb_lt in E1, E2.
      apply (FloatOrderFacts.le_not_lt _ _ (FloatOrderFacts.lt_le _ _ E1) E2).
    + apply eqb_refl_ordered, Hnb.
    + apply eqb_refl_ordered, Hna.
    + apply FloatOrderFacts.ltb_nlt in E1, E2. apply not_lt_eqb; assumption.
  - intros Hna Hnb. apply FloatOrderFacts.ordered_is_nan in Hna, Hnb.
    destruct (max a <? max b)%float eqn:E1, (max b <? max a)%float eqn:E2.
    + exfalso. apply FloatOrderFacts.ltb_lt in E1, E2.
      apply (FloatOrderFacts.le_not_lt _ _ (FloatOrderFacts.lt_le _ _ E1) E2).
    + apply eqb_refl_ordered, Hnb.
    + apply eqb_refl_ordered, Hna.
    + apply FloatOrderFacts.ltb_nlt in E1, E2. apply not_lt_eqb; assumption.
Qed.

Lemma distribution_addToIt_comm_witness :
  exists ab ba,
    Distribution.addToIt square scenarioB
      (DistributionValue (Some (mkDistribution 1 3 3 3 0 [0; 1] [2%float])))
    = Done ab
    /\ Distribution.addToIt square (mkDistribution 1 3 3 3 0 [0; 1] [2%float])
         (DistributionValue (Some scenarioB))
       = Done ba
    /\ count ab = count ba
    /\ countPerBucket ab = countPerBucket ba
    /\ mean ab = mean ba
    /\ (is_nan (min scenarioB) = false ->
        is_nan (min (mkDistribution 1 3 3 3 0 [0; 1] [2%float])) = false ->
        (min ab =? min ba)%float = true)
    /\ (is_nan (max scenarioB) = false ->
        is_nan (max (mkDistribution 1 3 3 3 0 [0; 1] [2%float])) = false ->
        (max ab =? max ba)%float = true).
Proof.
  apply (distribution_addToIt_comm square scenarioB
           (mkDistribution 1 3 3 3 0 [0; 1] [2%float]));
    [reflexivity|discriminate|discriminate].
Defined.

(** ** What the reachable values hold *)

Lemma inBucket_bounds (bs xs : list float) (i : nat) :
  0 <= inBucket bs xs i <= Z.of_nat (length xs).
Proof.
  induction xs as [|x xs IH]; simpl; [lia|].
  destruct (Distribution.bucketOf x bs 0 =? i)%nat; lia.
Qed.

Lemma inBucket_app (bs xs ys : list float) (i : nat) :
  inBucket bs (ys ++ xs) i = inBucket bs ys i + inBucket bs xs i.
Proof.
  induction ys as [|y ys IH]; simpl; [lia|].
  destruct (Distribution.bucketOf y bs 0 =? i)%nat; lia.
Qed.

Lemma histogram_lookup (bs xs : list float) (i : nat) :
  histogram bs xs !! i
  = if (i <? length bs + 1)%nat then Some (inBucket bs xs i) else None.
Proof.
  unfold histogram. rewrite list_lookup_fmap.
  destruct (Nat.ltb_spec i (length bs + 1)) as [H|H].
  - rewrite lookup_seq_lt by exact H. reflexivity.
  - rewrite lookup_seq_ge by exact H. reflexivity.
Qed.

Lemma histogram_length (bs xs : list float) :
  length (histogram bs xs) = (length bs + 1)%nat.
Proof. unfold histogram. rewrite length_fmap, length_seq. reflexivity. Qed.

(** The bucket counts of a reachable value are the histogram of its
    samples. *)
Lemma collected_is_histogram (Pow : float -> float -> float) (bs xs : list float)
  (a : AggregationDistributionValue) :
  Distribution.collected Pow bs xs a ->
  Z.of_nat (length xs) <= Int64.MaxInt64 ->
  countPerBucket a = histogram bs xs.
Proof.
  induction 1 as [|xs a v f a' Ha IH Hv Hadd
                  |xs ys a other a' Ha IHa Ho IHo Hadd]; intros Hn.
  - apply list_eq. intros i. rewrite histogram_lookup. simpl.
    destruct (Nat.ltb_spec i (length bs + 1)) as [H|H].
    + apply lookup_replicate_2. exact H.
    + apply lookup_replicate_None. exact H.
  - cbn [length] in Hn.
    assert (Z.of_nat (length xs) <= Int64.MaxInt64) as Hn' by lia.
    specialize (IH Hn').
    destruct (collected_shape _ _ _ _ Ha) as (Hwf & Hbs & _).
    destruct (addSample_numeric a v f Hwf Hv) as (c & Hl & Heq).
    rewrite Heq in Hadd. inversion Hadd; subst a'; clear Hadd.
    cbv zeta. proj_simpl. rewrite Hbs in *. rewrite IH in *.
    pose proof (lookup_lt_Some _ _ _ Hl) as Hlt.
    rewrite histogram_lookup in Hl. rewrite histogram_length in Hlt.
    apply Nat.ltb_lt in Hlt. rewrite Hlt in Hl. inversion Hl as [Hc].
    pose proof (inBucket_bounds bs xs (Distribution.bucketOf f bs 0)) as Hb.
    assert (Int64.add (inBucket bs xs (Distribution.bucketOf f bs 0)) 1
            = inBucket bs xs (Distribution.bucketOf f bs 0) + 1) as ->.
    { apply Int64Facts.wrap_small.
      unfold Int64.in_range, Int64.MinInt64, Int64.MaxInt64 in *. lia. }
    apply list_eq. intros i.
    destruct (Nat.eq_dec i (Distribution.bucketOf f bs 0)) as [->|Hne].
    + rewrite list_lookup_insert_eq
        by (rewrite histogram_length; apply Nat.ltb_lt; exact Hlt).
      rewrite histogram_lookup, Hlt. simpl. rewrite Nat.eqb_refl. reflexivity.
    + rewrite list_lookup_insert_ne by congruence.
      rewrite !histogram_lookup. simpl.
      destruct (Nat.eqb_spec (Distribution.bucketOf f bs 0) i); [congruence|].
      reflexivity.
  - rewrite length_app in Hn.
    assert (Z.of_nat (length xs) <= Int64.MaxInt64) as Hnx by lia.
    assert (Z.of_nat (length ys) <= Int64.MaxInt64) as Hny by lia.
    specialize (IHa Hnx). specialize (IHo Hny).
    destruct (collected_exact _ _ _ _ Ho Hny) as (_ & _ & Hco & _).
    destruct (collected_shape _ _ _ _ Ha) as (Hwa & Hba & _).
    destruct (collected_shape _ _ _ _ Ho) as (Hwo & Hbo & _).
    assert (length (countPerBucket a) = length (countPerBucket other)) as Hlen
      by (unfold Distribution.wellFormed in *; congruence).
    rewrite (addToIt_distribution Pow a other Hlen) in Hadd.
    inversion Hadd; subst a'; clear Hadd.
    destruct (Z.eqb_spec (count other) 0) as [E0|E0].
    + assert (ys = []) as -> by (destruct ys; [reflexivity|simpl in *; lia]).
      exact IHa.
    + proj_simpl. rewrite IHa, IHo. apply list_eq. intros i.
      rewrite lookup_zip_with, !histogram_lookup.
      destruct (i <? length bs + 1)%nat; [|reflexivity]. simpl.
      rewrite inBucket_app. f_equal.
      pose proof (inBucket_bounds bs xs i).
      pose proof (inBucket_bounds bs ys i).
      unfold Int64.add. rewrite Int64Facts.wrap_small; [lia|].
      unfold Int64.in_range, Int64.MinInt64, Int64.MaxInt64 in *. lia.
Qed.

(** X13: the bucket counts are the histogram of the samples: in a value
    reached from the zeroed state over the bounds [bs] by numeric
    [addSample] calls and [addToIt] calls, in any order, while the samples
    can be counted in an [int64], bucket [i] holds the number of the samples
    that went into it whose bucket is [i]. *)
Theorem collected_histogram (Pow : float -> float -> float) (bs xs : list float)
  (a : AggregationDistributionValue) :
  Distribution.collected Pow bs xs a ->
  Z.of_nat (length xs) <= Int64.MaxInt64 ->
  countPerBucket a = histogram bs xs.
Proof. apply collected_is_histogram. Qed.

Lemma collected_histogram_witness :
  countPerBucket scenarioB = histogram [2%float] [5%float; 1%float].
Proof.
  apply (collected_histogram square [2%float] [5%float; 1%float] scenarioB).
  - apply scenarioB_collected.
  - vm_compute. discriminate.
Defined.

(** Min and max of a reachable value are samples or the initial values. *)
Lemma collected_attained (Pow : float -> float -> float)
  (bs xs : list float) (a : AggregationDistributionValue) :
  Distribution.collected Pow bs xs a ->
  (min a = Float64.MaxFloat64 \/ min a ∈ xs)
  /\ (max a = Float64.SmallestNonzeroFloat64 \/ max a ∈ xs)
  /\ ((forall x, x ∈ xs -> (Float64.SmallestNonzeroFloat64 <? x)%float = false) ->
      max a = Float64.SmallestNonzeroFloat64)
  /\ ((forall x, x ∈ xs -> (x <? Float64.MaxFloat64)%float = false) ->
      min a = Float64.MaxFloat64).
Proof.
  induction 1 as [|xs a v f a' Ha IH Hv Hadd
                  |xs ys a other a' Ha IHa Ho IHo Hadd].
  - simpl. auto.
  - destruct IH as (Hmin & Hmax & Hsmax & Hsmin).
    destruct (collected_shape _ _ _ _ Ha) as (Hwf & _).
    destruct (addSample_numeric a v f Hwf Hv) as (c & _ & Heq).
    rewrite Heq in Hadd. inversion Hadd; subst a'; clear Hadd.
    cbv zeta. proj_simpl. split; [|split; [|split]].
    + destruct (f <? min a)%float.
      * right. apply elem_of_cons. auto.
      * destruct Hmin; [auto|right; apply elem_of_cons; auto].
    + destruct (max a <? f)%float.
      * right. apply elem_of_cons. auto.
      * destruct Hmax; [auto|right; apply elem_of_cons; auto].
    + intros Hall.
      rewrite Hsmax by (intros x Hx; apply Hall, elem_of_cons; auto).
      rewrite (Hall f) by (apply elem_of_cons; auto). reflexivity.
    + intros Hall.
      rewrite Hsmin by (intros x Hx; apply Hall, elem_of_cons; auto).
      rewrite (Hall f) by (apply elem_of_cons; auto). reflexivity.
  - destruct IHa as (Hmina & Hmaxa & Hsmaxa & Hsmina).
    destruct IHo as (Hmino & Hmaxo & Hsmaxo & Hsmino).
    destruct (collected_shape _ _ _ _ Ha) as (Hwa & Hba & _).
    destruct (collected_shape _ _ _ _ Ho) as (Hwo & Hbo & _).
    assert (length (countPerBucket a) = length (countPerBucket other)) as Hlen
      by (unfold Distribution.wellFormed in *; congruence).
    rewrite (addToIt_distribution Pow a other Hlen) in Hadd.
    inversion Hadd; subst a'; clear Hadd.
    destruct (count other =? 0).
    + split; [|split; [|split]].
      * destruct Hmina; [auto|right; apply elem_of_app; auto].
      * destruct Hmaxa; [auto|right; apply elem_of_app; auto].
      * intros Hall. apply Hsmaxa. intros x Hx. apply Hall, elem_of_app. auto.
      * intros Hall. apply Hsmina. intros x Hx. apply Hall, elem_of_app. auto.
    + proj_simpl. split; [|split; [|split]].
      * destruct (min other <? min a)%float.
        -- destruct Hmino; [auto|right; apply elem_of_app; auto].
        -- destruct Hmina; [auto|right; apply elem_of_app; auto].
      * destruct (max a <? max other)%float.
        -- destruct Hmaxo; [auto|right; apply elem_of_app; auto].
        -- destruct Hmaxa; [auto|right; apply elem_of_app; auto].
      * intros Hall.
        rewrite Hsmaxa by (intros x Hx; apply Hall, elem_of_app; auto).
        rewrite Hsmaxo by (intros x Hx; apply Hall, elem_of_app; auto).
        reflexivity.
      * intros Hall.
        rewrite Hsmina by (intros x Hx; apply Hall, elem_of_app; auto).
        rewrite Hsmino by (intros x Hx; apply Hall, elem_of_app; auto).
        reflexivity.
Qed.

(** X14: min and max are samples or the initial values: in a value
    reached from the zeroed state, min is [math.MaxFloat64] or one of the
    samples that went into it, and max is [math.SmallestNonzeroFloat64] or
    one of them. Max is raised only by a sample above the initial value:
    while no sample is above [math.SmallestNonzeroFloat64] (all are
    negative or zero, say), max stays at it; and min stays at
    [math.MaxFloat64] while no sample is below it. *)
Theorem collected_min_max_attained (Pow : float -> float -> float)
  (bs xs : list float) (a : AggregationDistributionValue) :
  Distribution.collected Pow bs xs a ->
  (min a = Float64.MaxFloat64 \/ min a ∈ xs)
  /\ (max a = Float64.SmallestNonzeroFloat64 \/ max a ∈ xs)
  /\ ((forall x, x ∈ xs -> (Float64.SmallestNonzeroFloat64 <? x)%float = false) ->
      max a = Float64.SmallestNonzeroFloat64)
  /\ ((forall x, x ∈ xs -> (x <? Float64.MaxFloat64)%float = false) ->
      min a = Float64.MaxFloat64).
Proof. apply collected_attained. Qed.

Lemma collected_min_max_attained_witness :
  (min scenarioB = Float64.MaxFloat64 \/ min scenarioB ∈ [5%float; 1%float])
  /\ (max scenarioB = Float64.SmallestNonzeroFloat64
      \/ max scenarioB ∈ [5%float; 1%float])
  /\ ((forall x, x ∈ [5%float; 1%float] ->
                 (Float64.SmallestNonzeroFloat64 <? x)%float = false) ->
      max scenarioB = Float64.SmallestNonzeroFloat64)
  /\ ((forall x, x ∈ [5%float; 1%float] ->
                 (x <? Float64.MaxFloat64)%float = false) ->
      min scenarioB = Float64.MaxFloat64).
Proof.
  apply (collected_min_max_attained square [2%float] [5%float; 1%float] scenarioB).
  apply scenarioB_collected.
Defined.

Lemma collected_nil (Pow : float -> float -> float) (bs xs : list float)
  (a : AggregationDistributionValue) :
  Distribution.collected Pow bs xs a -> xs = [] ->
  a = Distribution.newAggregationDistributionValue bs.
Proof.
  induction 1 as [|xs a v f a' Ha IH Hv Hadd
                  |xs ys a other a' Ha IHa Ho IHo Hadd]; intros Hxs.
  - reflexivity.
  - discriminate.
  - apply app_eq_nil in Hxs. destruct Hxs as [Hys Hxs].
    rewrite (IHa Hxs), (IHo Hys) in Hadd. simpl in Hadd.
    inversion Hadd. reflexivity.
Qed.

(** X15: a count of 0 means the zeroed state: a value reached from the
    zeroed state over the bounds [bs], while the samples that went into it
    can be counted in an [int64], has count 0 only when no sample went into
    it, and then it is the value the constructor builds (min, max and mean
    at their initial values, every bucket count 0). *)
Theorem collected_count_zero (Pow : float -> float -> float) (bs xs : list float)
  (a : AggregationDistributionValue) :
  Distribution.collected Pow bs xs a ->
  Z.of_nat (length xs) <= Int64.MaxInt64 ->
  count a = 0 ->
  xs = [] /\ a = Distribution.newAggregationDistributionValue bs.
Proof.
  intros H Hn Hc.
  destruct (collected_exact _ _ _ _ H Hn) as (_ & _ & Hlen & _).
  assert (xs = []) as Hxs by (destruct xs; [reflexivity|simpl in *; lia]).
  split; [exact Hxs|]. apply (collected_nil Pow bs xs a H Hxs).
Qed.

Lemma collected_count_zero_witness :
  @nil float = []
  /\ Distribution.newAggregationDistributionValue [2%float]
     = Distribution.newAggregationDistributionValue [2%float].
Proof.
  apply (collected_count_zero square [2%float] []
           (Distribution.newAggregationDistributionValue [2%float])).
  - apply Distribution.collected_new.
  - vm_compute. discriminate.
  - reflexivity.
Defined.

(** ** Independence of the order *)

Lemma inBucket_Permutation (bs xs xs' : list float) (i : nat) :
  xs ≡ₚ xs' -> inBucket bs xs i = inBucket bs xs' i.
Proof.
  induction 1 as [|x xs xs' _ IH|x y xs|xs xs' xs'' _ IH1 _ IH2]; simpl.
  - reflexivity.
  - rewrite IH. reflexivity.
  - destruct (Distribution.bucketOf x bs 0 =? i)%nat,
             (Distribution.bucketOf y bs 0 =? i)%nat; reflexivity.
  - congruence.
Qed.

(** Min never rises above its initial value and max never falls below
    its own. *)
Lemma collected_sentinels (Pow : float -> float -> float) (bs xs : list float)
  (a : AggregationDistributionValue) :
  Distribution.collected Pow bs xs a ->
  FloatOrder.le (min a) Float64.MaxFloat64
  /\ FloatOrder.le Float64.SmallestNonzeroFloat64 (max a).
Proof.
  induction 1 as [|xs a v f a' Ha IH Hv Hadd
                  |xs ys a other a' Ha IHa Ho IHo Hadd].
  - split; apply FloatOrderFacts.le_refl, FloatOrderFacts.ordered_is_nan;
      reflexivity.
  - destruct IH as [Hmin Hmax].
    destruct (collected_shape _ _ _ _ Ha) as (Hwf & _).
    destruct (addSample_numeric a v f Hwf Hv) as (c & _ & Heq).
    rewrite Heq in Hadd. inversion Hadd; subst a'; clear Hadd.
    cbv zeta. proj_simpl. split.
    + destruct (f <? min a)%float eqn:E; [|exact Hmin].
      apply FloatOrderFacts.ltb_lt in E. apply FloatOrderFacts.lt_le.
      eapply FloatOrderFacts.lt_le_trans; eauto.
    + destruct (max a <? f)%float eqn:E; [|exact Hmax].
      apply FloatOrderFacts.ltb_lt in E. apply FloatOrderFacts.lt_le.
      eapply FloatOrderFacts.le_lt_trans; eauto.
  - destruct IHa as [Hmina Hmaxa]. destruct IHo as [Hmino Hmaxo].
    destruct (collected_shape _ _ _ _ Ha) as (Hwa & Hba & _).
    destruct (collected_shape _ _ _ _ Ho) as (Hwo & Hbo & _).
    assert (length (countPerBucket a) = length (countPerBucket other)) as Hlen
      by (unfold Distribution.wellFormed in *; congruence).
    rewrite (addToIt_distribution Pow a other Hlen) in Hadd.
    inversion Hadd; subst a'; clear Hadd.
    destruct (count other =? 0); [auto|]. proj_simpl. split.
    + destruct (min other <? min a)%float; assumption.
    + destruct (max a <? max other)%float; assumption.
Qed.

Lemma le_antisym_eqb (x y : float) :
  FloatOrder.le x y -> FloatOrder.le y x -> (x =? y)%float = true.
Proof.
  intros Hxy Hyx. apply not_lt_eqb.
  - eapply FloatOrderFacts.le_ordered_l; eauto.
  - eapply FloatOrderFacts.le_ordered_r; eauto.
  - apply FloatOrderFacts.le_not_lt, Hyx.
  - apply FloatOrderFacts.le_not_lt, Hxy.
Qed.

(** X16: count, bucket counts, min and max do not depend on the order:
    two values reached from the zeroed state over the same bounds, by
    whatever sequences of numeric [addSample] calls and [addToIt] calls,
    into which the same samples went (in any order, at most
    [math.MaxInt64] of them) have the same count, the same bucket counts,
    and the same min and the same max ([==]). *)
Theorem collected_order_independent (Pow : float -> float -> float)
  (bs xs xs' : list float) (a a' : AggregationDistributionValue) :
  Distribution.collected Pow bs xs a ->
  Distribution.collected Pow bs xs' a' ->
  xs ≡ₚ xs' ->
  Z.of_nat (length xs) <= Int64.MaxInt64 ->
  count a = count a'
  /\ countPerBucket a = countPerBucket a'
  /\ (min a =? min a')%float = true
  /\ (max a =? max a')%float = true.
Proof.
  intros Ha Ha' Hp Hn.
  assert (Z.of_nat (length xs') <= Int64.MaxInt64) as Hn'
    by (rewrite <- (Permutation_length Hp); exact Hn).
  destruct (collected_exact _ _ _ _ Ha Hn) as (_ & _ & Hc & Hx).
  destruct (collected_exact _ _ _ _ Ha' Hn') as (_ & _ & Hc' & Hx').
  destruct (collected_shape _ _ _ _ Ha) as (_ & _ & _ & Homin & Homax).
  destruct (collected_shape _ _ _ _ Ha') as (_ & _ & _ & Homin' & Homax').
  destruct (collected_attained _ _ _ _ Ha) as (Hmin & Hmax & _).
  destruct (collected_attained _ _ _ _ Ha') as (Hmin' & Hmax' & _).
  destruct (collected_sentinels _ _ _ _ Ha) as [Hsmin Hsmax].
  destruct (collected_sentinels _ _ _ _ Ha') as [Hsmin' Hsmax'].
  split; [rewrite Hc, Hc', (Permutation_length Hp); reflexivity|].
  split.
  { rewrite (collected_is_histogram _ _ _ _ Ha Hn),
      (collected_is_histogram _ _ _ _ Ha' Hn').
    apply list_eq. intros i. rewrite !histogram_lookup.
    rewrite (inBucket_Permutation bs xs xs' i Hp). reflexivity. }
  split.
  - apply le_antisym_eqb.
    + destruct Hmin' as [E|Hin].
      * rewrite E. exact Hsmin.
      * apply (Hx (min a')); [rewrite Hp; exact Hin|exact Homin'].
    + destruct Hmin as [E|Hin].
      * rewrite E. exact Hsmin'.
      * apply (Hx' (min a)); [rewrite <- Hp; exact Hin|exact Homin].
  - apply le_antisym_eqb.
    + destruct Hmax as [E|Hin].
      * rewrite E. exact Hsmax'.
      * apply (Hx' (max a)); [rewrite <- Hp; exact Hin|exact Homax].
    + destruct Hmax' as [E|Hin].
      * rewrite E. exact Hsmax.
      * apply (Hx (max a')); [rewrite Hp; exact Hin|exact Homax'].
Qed.

(** The samples 1 and 5 added in the other order. *)
Lemma scenarioB_reversed (Pow : float -> float -> float) :
  Distribution.collected Pow [2%float] [1%float; 5%float] scenarioB.
Proof.
  apply (Distribution.collected_addSample Pow _ [5%float]
           (mkDistribution 1 5 5 5 0 [0; 1] [2%float]) (VFloat64 1) 1%float);
    [|reflexivity|reflexivity].
  apply (Distribution.collected_addSample Pow _ []
           (Distribution.newAggregationDistributionValue [2%float])
           (VFloat64 5) 5%float);
    [|reflexivity|reflexivity].
  apply Distribution.collected_new.
Defined.

Lemma collected_order_independent_witness :
  count scenarioB = count scenarioB
  /\ countPerBucket scenarioB = countPerBucket scenarioB
  /\ (min scenarioB =? min scenarioB)%float = true
  /\ (max scenarioB =? max scenarioB)%float = true.
Proof.
  apply (collected_order_independent square [2%float]
           [5%float; 1%float] [1%float; 5%float]).
  - apply scenarioB_collected.
  - apply scenarioB_reversed.
  - apply Permutation_swap.
  - vm_compute. discriminate.
Defined.
